(** * WoodGrain: a shallow embedding of [WoodGrain.py]

    The post-processing script rewrites a list of g-code layers, injecting
    [M104] temperature commands that follow a Perlin-noise curve over the
    Z height.

    Conventions of the embedding.
    - A Python float is the rational number it denotes ([Q]).  Equality of
      floats ([==], [!=], dictionary keys) is [Qeq].
    - The first pass is in binary64 arithmetic.  Reading a height, the
      tests on heights and every operation of the noise are rounded to the
      nearest double, ties to even ([F64.round]), in the order in which
      Python evaluates them.  The exponent range is unbounded above: an
      overflow to infinity, which takes a magnitude of 1.8e308, is outside
      the model, and so are NaN and the sign of zero.
    - The normalisation of the noise map and the temperature scheduler are
      in exact arithmetic: rounding is not modelled there.
    - Python [str] is [string]; only the operations the script uses are
      defined ([in], [find], [lower], [split], [replace], [%] formatting,
      [str] of a float).
    - Exceptions are explicit: a computation returns [Ok v] or [Raise e].
    - [data], the list the host hands to [execute], is mutated in place;
      [execute] therefore yields the state of that list both on normal
      return and when an exception escapes.
    - [random.shuffle] and [math.pow] are library calls: the shuffled
      permutation and the power function are inputs of the model.
    - [str.lower] is the ASCII one; it only feeds the tests on comment
      markers. *)

From Stdlib Require Import ZArith QArith Qpower Qround Qabs Lqa Lia Bool List.
From Stdlib Require Import Ascii String.
Import ListNotations.

Local Open Scope string_scope.
Local Open Scope Z_scope.
Local Open Scope Q_scope.

(** ** Exceptions *)

Inductive exn : Type :=
| ZeroDivisionError
| IndexError
| ValueError
| KeyError
| UnboundLocalError.

Inductive result (A : Type) : Type :=
| Ok (a : A)
| Raise (e : exn).

Arguments Ok {A} a.
Arguments Raise {A} e.

Definition bind {A B : Type} (m : result A) (k : A -> result B) : result B :=
  match m with
  | Ok a => k a
  | Raise e => Raise e
  end.

Notation "x <- m ;; k" := (bind m (fun x => k))
  (at level 61, m at next level, right associativity).

(** ** Python strings *)

Module Str.

Definition nl : ascii := "010"%char.

(** [eol = "\n"] *)
Definition eol : string := String nl EmptyString.

(** [s.startswith(p)] *)
Fixpoint startswith (p s : string) : bool :=
  match p, s with
  | EmptyString, _ => true
  | String _ _, EmptyString => false
  | String a p', String b s' => Ascii.eqb a b && startswith p' s'
  end.

(** [p in s] *)
Fixpoint contains (p s : string) : bool :=
  startswith p s ||
  match s with
  | EmptyString => false
  | String _ s' => contains p s'
  end.

(** [s.find(p)]: lowest index of an occurrence, [-1] when there is none. *)
Fixpoint find_from (p s : string) (i : Z) : Z :=
  if startswith p s then i
  else match s with
       | EmptyString => (-1)%Z
       | String _ s' => find_from p s' (i + 1)%Z
       end.

Definition find (p s : string) : Z := find_from p s 0%Z.

(** [s[i:]] for [i >= 0] *)
Fixpoint drop (n : nat) (s : string) : string :=
  match n, s with
  | O, _ => s
  | S _, EmptyString => EmptyString
  | S n', String _ s' => drop n' s'
  end.

Definition lower_char (c : ascii) : ascii :=
  let n := nat_of_ascii c in
  if (65 <=? n)%nat && (n <=? 90)%nat then ascii_of_nat (n + 32) else c.

(** [s.lower()], on ASCII *)
Fixpoint lower (s : string) : string :=
  match s with
  | EmptyString => EmptyString
  | String c s' => String (lower_char c) (lower s')
  end.

(** [s.split("\n")] *)
Fixpoint split (s : string) : list string :=
  match s with
  | EmptyString => [EmptyString]
  | String c s' =>
      if Ascii.eqb c nl then EmptyString :: split s'
      else match split s' with
           | [] => [String c EmptyString]
           | l :: ls => String c l :: ls
           end
  end.

(** [s.replace(pat, rep)] for a non-empty [pat]: occurrences are replaced
    left to right without overlap; [skip] counts the characters of a matched
    occurrence still to be dropped. *)
Fixpoint replace_from (pat rep : string) (skip : nat) (s : string) : string :=
  match s with
  | EmptyString => EmptyString
  | String c s' =>
      match skip with
      | S k => replace_from pat rep k s'
      | O =>
          if startswith pat s
          then rep ++ replace_from pat rep (String.length pat - 1) s'
          else String c (replace_from pat rep 0 s')
      end
  end.

(** With an empty pattern Python inserts [rep] before every character and
    at the end. *)
Fixpoint intersperse (rep s : string) : string :=
  match s with
  | EmptyString => rep
  | String c s' => rep ++ String c (intersperse rep s')
  end.

Definition replace (s pat rep : string) : string :=
  match pat with
  | EmptyString => intersperse rep s
  | String _ _ => replace_from pat rep 0 s
  end.

(** [c * n] for a one-character string *)
Fixpoint repeat_char (c : ascii) (n : nat) : string :=
  match n with
  | O => EmptyString
  | S n' => String c (repeat_char c n')
  end.

End Str.

(** ** Numbers: parsing and [%]-formatting *)

Module Num.

Definition is_digit (c : ascii) : bool :=
  let n := nat_of_ascii c in (48 <=? n)%nat && (n <=? 57)%nat.

Definition digit_val (c : ascii) : Z := Z.of_nat (nat_of_ascii c) - 48.

(** The longest prefix of digits, and the rest. *)
Fixpoint span_digits (s : string) : string * string :=
  match s with
  | EmptyString => (EmptyString, EmptyString)
  | String c s' =>
      if is_digit c
      then let (d, r) := span_digits s' in (String c d, r)
      else (EmptyString, s)
  end.

Fixpoint digits_val (acc : Z) (s : string) : Z :=
  match s with
  | EmptyString => acc
  | String c s' => digits_val (10 * acc + digit_val c) s'
  end.

(** [re.search('^[-+]?[0-9]+\.?[0-9]*', s)] followed by [float(m.group(0))]:
    [None] when the regular expression does not match.  The match is an
    optional sign, at least one digit, an optional point and further
    digits; its value is the decimal number read exactly. *)
Definition match_float (s : string) : option Q :=
  let (neg, body) :=
    match s with
    | String "-" s' => (true, s')
    | String "+" s' => (false, s')
    | _ => (false, s)
    end in
  let (ip, rest) := span_digits body in
  match ip with
  | EmptyString => None
  | String _ _ =>
      let fp :=
        match rest with
        | String "." rest' => fst (span_digits rest')
        | _ => EmptyString
        end in
      let n := digits_val (digits_val 0 ip) fp in
      let v := n # Z.to_pos (10 ^ Z.of_nat (String.length fp)) in
      Some (if neg then - v else v)
  end.

(** [int(x)] on a float: truncation toward zero. *)
Definition int (x : Q) : Z := Z.quot (Qnum x) (Zpos (Qden x)).

Definition digit_char (d : Z) : ascii := ascii_of_nat (Z.to_nat d + 48).

(** Decimal digits of a natural number, most significant first. *)
Fixpoint digits_fuel (fuel : nat) (n : Z) (acc : string) : string :=
  match fuel with
  | O => acc
  | S f =>
      let acc' := String (digit_char (n mod 10)) acc in
      if (n <? 10)%Z then acc' else digits_fuel f (n / 10)%Z acc'
  end.

Definition digits (n : Z) : string :=
  digits_fuel (S (Z.to_nat (Z.log2 n))) n EmptyString.

(** ["%i" % n] on an integer *)
Definition fmt_int (n : Z) : string :=
  if (n <? 0)%Z then String "-" (digits (- n)) else digits n.

(** ["%i" % x] on a float *)
Definition fmt_i (x : Q) : string := fmt_int (int x).

(** Left padding with [c] up to [width] characters. *)
Definition pad_left (c : ascii) (width : nat) (s : string) : string :=
  Str.repeat_char c (width - String.length s) ++ s.

(** ["%3i" % x] *)
Definition fmt_3i (x : Q) : string := pad_left " " 3 (fmt_i x).

(** Rounding to the nearest integer, ties to even. *)
Definition round_half_even (x : Q) : Z :=
  let f := Qfloor x in
  let r := x - inject_Z f in
  match Qcompare r (1 # 2) with
  | Lt => f
  | Gt => (f + 1)%Z
  | Eq => if Z.even f then f else (f + 1)%Z
  end.

(** ["%03f" % x]: six decimals; the width 3 never pads, the result having
    at least eight characters. *)
Definition fmt_f (x : Q) : string :=
  let n := round_half_even (Qabs x * 1000000) in
  let body :=
    digits (n / 1000000) ++ "." ++ pad_left "0" 6 (digits (n mod 1000000)) in
  if Qlt_le_dec x 0 then String "-" body else body.

End Num.

(** Comparisons of floats as booleans. *)
Definition Qltb (a b : Q) : bool := negb (Qle_bool b a).
Definition Qgtb (a b : Q) : bool := Qltb b a.

(** ** Binary64 arithmetic

    A finite double is [m * 2^q] with [|m| < 2^53] and [q >= -1074].  The
    result of an operation is the exact result rounded to the nearest
    double, ties to the even [m]. *)

Module F64.

(** [ilog2 x], for [x <> 0]: the [e] with [2^e <= |x| < 2^(e+1)]. *)
Definition ilog2 (x : Q) : Z :=
  let e := (Z.log2 (Z.abs (Qnum x)) - Z.log2 (Zpos (Qden x)))%Z in
  if Qle_bool (2 ^ e) (Qabs x) then e else (e - 1)%Z.

(** The exponent [q] of the doubles around [x]: 53 significant bits, and
    no less than [-1074], where the subnormal numbers are. *)
Definition quantum (x : Q) : Z := Z.max (ilog2 x - 52) (-1074).

(** The multiple of [2^q] nearest to a positive [x]. *)
Definition nearest (x : Q) : Q :=
  inject_Z (Num.round_half_even (x / 2 ^ quantum x)) * 2 ^ quantum x.

(** Rounding to the nearest double. *)
Definition round (x : Q) : Q :=
  match Qcompare x 0 with
  | Eq => 0
  | Gt => nearest x
  | Lt => - nearest (- x)
  end.

(** [a + b], [a - b] and [a * b] on floats *)
Definition add (a b : Q) : Q := round (a + b).
Definition sub (a b : Q) : Q := round (a - b).
Definition mul (a b : Q) : Q := round (a * b).

(** [a / b] on floats *)
Definition div (a b : Q) : result Q :=
  if Qeq_bool b 0 then Raise ZeroDivisionError else Ok (round (a / b)).

End F64.

(** ** [str] of a float

    [str(x)] is [repr(x)]: the shortest decimal that reads back as [x],
    the nearest to [x] among those, printed with a point, or with an
    exponent when the first digit stands below [1e-4] or from [1e16]
    on. *)

Module Repr.

(** The number of decimal digits of a positive integer. *)
Definition ndigits (n : Z) : Z := Z.of_nat (String.length (Num.digits n)).

(** [decpt a], for [0 < a]: the [k] with [10^(k-1) <= a < 10^k]. *)
Definition decpt (a : Q) : Z :=
  if Qle_bool 1 a then ndigits (Qfloor a)
  else (1 - ndigits (Qceiling (/ a) - 1))%Z.

(** Whether the decimal [c * 10^e] reads back as the double [a]. *)
Definition reads_as (a : Q) (c e : Z) : bool :=
  Qeq_bool (F64.round (inject_Z c * 10 ^ e)) a.

(** The shortest decimal [c * 10^e] that reads back as [a], with [n]
    digits or more; [k] is [decpt a].  Seventeen digits always do. *)
Fixpoint shortest (fuel : nat) (n : Z) (a : Q) (k : Z) : Z * Z :=
  let e := (k - n)%Z in
  let s := a / 10 ^ e in
  let c := Num.round_half_even s in
  match fuel with
  | O => (c, e)
  | S f =>
      let c' := if (Qfloor s <? c)%Z then Qfloor s else (c + 1)%Z in
      if reads_as a c e then (c, e)
      else if reads_as a c' e then (c', e)
      else shortest f (n + 1) a k
  end.

(** [s] without its trailing zeros. *)
Fixpoint strip_zeros (s : string) : string :=
  match s with
  | EmptyString => EmptyString
  | String c s' =>
      match strip_zeros s' with
      | EmptyString => if Ascii.eqb c "0" then EmptyString else String c ""
      | r => String c r
      end
  end.

Definition str_float (x : Q) : string :=
  let d := F64.round x in
  if Qeq_bool d 0 then "0.0"
  else
    let a := Qabs d in
    let (c, e) := shortest 16 1 a (decpt a) in
    let ds := strip_zeros (Num.digits c) in
    let nd := Z.of_nat (String.length ds) in
    let pt := (e + ndigits c)%Z in
    let body :=
      if (pt <=? -4)%Z || (16 <? pt)%Z then
        substring 0 1 ds
        ++ (if (nd <=? 1)%Z then "" else "." ++ Str.drop 1 ds)
        ++ "e" ++ (if (pt - 1 <? 0)%Z then "-" else "+")
        ++ Num.pad_left "0" 2 (Num.digits (Z.abs (pt - 1)))
      else if (pt <=? 0)%Z then
        "0." ++ Str.repeat_char "0" (Z.to_nat (- pt)) ++ ds
      else if (nd <=? pt)%Z then
        ds ++ Str.repeat_char "0" (Z.to_nat (pt - nd)) ++ ".0"
      else
        substring 0 (Z.to_nat pt) ds ++ "." ++ Str.drop (Z.to_nat pt) ds in
    if Qlt_le_dec d 0 then String "-" body else body.

End Repr.

(** ** Dictionaries with float keys

    A Python [dict] keeps its keys in insertion order and compares them
    with [==]; assigning to a key already present overwrites its value in
    place. *)

Module Dict.

Definition t : Type := list (Q * Q).

Fixpoint get (k : Q) (d : t) : option Q :=
  match d with
  | [] => None
  | (k', v) :: d' => if Qeq_bool k' k then Some v else get k d'
  end.

(** [d[k]] *)
Definition item (k : Q) (d : t) : result Q :=
  match get k d with Some v => Ok v | None => Raise KeyError end.

(** [k in d] *)
Definition mem (k : Q) (d : t) : bool :=
  match get k d with Some _ => true | None => false end.

(** [d[k] = v] *)
Fixpoint set (k v : Q) (d : t) : t :=
  match d with
  | [] => [(k, v)]
  | (k', v') :: d' =>
      if Qeq_bool k' k then (k', v) :: d' else (k', v') :: set k v d'
  end.

Definition keys (d : t) : list Q := map fst d.

(** [max(d, key = d.get)]: the first key whose value is maximal. *)
Fixpoint max_from (best : Q * Q) (d : t) : Q * Q :=
  match d with
  | [] => best
  | kv :: d' => max_from (if Qltb (snd best) (snd kv) then kv else best) d'
  end.

Definition max_key (d : t) : result Q :=
  match d with
  | [] => Raise ValueError
  | kv :: d' => Ok (fst (max_from kv d'))
  end.

(** [min(d, key = d.get)]: the first key whose value is minimal. *)
Fixpoint min_from (best : Q * Q) (d : t) : Q * Q :=
  match d with
  | [] => best
  | kv :: d' => min_from (if Qltb (snd kv) (snd best) then kv else best) d'
  end.

Definition min_key (d : t) : result Q :=
  match d with
  | [] => Raise ValueError
  | kv :: d' => Ok (fst (min_from kv d'))
  end.


(** No two entries have equal keys. *)
Fixpoint wf (d : t) : Prop :=
  match d with
  | [] => True
  | (k, _) :: d' => get k d' = None /\ wf d'
  end.

End Dict.

(** [a / b] on floats, in exact arithmetic *)
Definition py_div (a b : Q) : result Q :=
  if Qeq_bool b 0 then Raise ZeroDivisionError else Ok (a / b).

(** [l[i]] on a list, with Python's negative indices *)
Definition getitem (l : list Z) (i : Z) : result Z :=
  let n := Z.of_nat (List.length l) in
  let j := if (i <? 0)%Z then (i + n)%Z else i in
  if (j <? 0)%Z then Raise IndexError
  else match nth_error l (Z.to_nat j) with
       | Some v => Ok v
       | None => Raise IndexError
       end.

(** ** G-code field extraction *)

(** [getValue(line, key, default)].  The result is the number read after
    [key], or [default].  [Num.match_float] gives the value of the matched
    text as it is written; [num] is what becomes of it: the conversion
    [float], which is [F64.round], and the injection in the type of
    [default] ([None] or a number in the script). *)
Definition getValue {A : Type} (num : Q -> A)
    (line key : string) (default : A) : A :=
  if negb (Str.contains key line)
     || (Str.contains ";" line
         && (Str.find ";" line <? Str.find key line)%Z)
  then default
  else
    let sub_part :=
      Str.drop (Z.to_nat (Str.find key line) + String.length key) line in
    match Num.match_float sub_part with
    | None => default
    | Some v => num v
    end.

Definition is_float (o : option Q) (v : Q) : bool :=
  match o with Some x => Qeq_bool x v | None => false end.

(** [float] into the type of a field that may be missing. *)
Definition float (v : Q) : option Q := Some (F64.round v).

(** [getZ(line, default)] *)
Definition getZ {A : Type} (num : Q -> A) (line : string) (default : A) : A :=
  if is_float (getValue float line "G" None) 0
     || is_float (getValue float line "G" None) 1
  then getValue num line "Z" default
  else default.

(** ** Perlin noise *)

Module Perlin.

Record t : Type := { tiledim : Z; perm : list Z }.

(** [Perlin(tiledim)]; [shuffled] is [range(tiledim)] after
    [random.shuffle], copied twice into [perm]. *)
Definition init (tiledim : Z) (shuffled : list Z) : t :=
  {| tiledim := tiledim; perm := shuffled ++ shuffled |}.

Definition fade (t : Q) : Q :=
  F64.mul (F64.mul (F64.mul t t) t)
    (F64.add (F64.mul t (F64.sub (F64.mul t 6) 15)) 10).

Definition lerp (t a b : Q) : Q := F64.add a (F64.mul t (F64.sub b a)).

Definition grad (hash : Z) (x y z : Q) : Q :=
  let h := Z.land hash 15 in
  let u := if (h <? 8)%Z then x else y in
  let v := if (h <? 4)%Z then y
           else if (h =? 12)%Z || (h =? 14)%Z then x else z in
  let first := if (Z.land h 1 =? 0)%Z then u else - u in
  let second := if (Z.land h 2 =? 0)%Z then v else - v in
  F64.add first second.

Definition noise (self : t) (x y z : Q) : result Q :=
  let p := getitem (perm self) in
  let X := Z.land (Num.int x) (tiledim self - 1) in
  let Y := Z.land (Num.int y) (tiledim self - 1) in
  let Z' := Z.land (Num.int z) (tiledim self - 1) in
  let x := F64.sub x (inject_Z (Num.int x)) in
  let y := F64.sub y (inject_Z (Num.int y)) in
  let z := F64.sub z (inject_Z (Num.int z)) in
  let u := fade x in
  let v := fade y in
  let w := fade z in
  pX <- p X ;;
  let A := (pX + Y)%Z in
  pA <- p A ;;
  let AA := (pA + Z')%Z in
  pA1 <- p (A + 1)%Z ;;
  let AB := (pA1 + Z')%Z in
  pX1 <- p (X + 1)%Z ;;
  let B := (pX1 + Y)%Z in
  pB <- p B ;;
  let BA := (pB + Z')%Z in
  pB1 <- p (B + 1)%Z ;;
  let BB := (pB1 + Z')%Z in
  gAA <- p AA ;;
  gBA <- p BA ;;
  gAB <- p AB ;;
  gBB <- p BB ;;
  gAA1 <- p (AA + 1)%Z ;;
  gBA1 <- p (BA + 1)%Z ;;
  gAB1 <- p (AB + 1)%Z ;;
  gBB1 <- p (BB + 1)%Z ;;
  let x1 := F64.sub x 1 in
  let y1 := F64.sub y 1 in
  let z1 := F64.sub z 1 in
  Ok (lerp w
        (lerp v
           (lerp u (grad gAA x y z) (grad gBA x1 y z))
           (lerp u (grad gAB x y1 z) (grad gBB x1 y1 z)))
        (lerp v
           (lerp u (grad gAA1 x y z1) (grad gBA1 x1 y z1))
           (lerp u (grad gAB1 x y1 z1) (grad gBB1 x1 y1 z1)))).

(** The loop of [fractal]: one iteration per remaining octave. *)
Fixpoint fractal_loop (self : t) (octaves : nat) (persistence x y z : Q)
    (value amplitude totalAmplitude frequency : Q) : result (Q * Q) :=
  match octaves with
  | O => Ok (value, totalAmplitude)
  | S k =>
      n <- noise self (F64.mul x frequency) (F64.mul y frequency)
             (F64.mul z frequency) ;;
      fractal_loop self k persistence x y z
        (F64.add value (F64.mul amplitude n)) (F64.mul amplitude persistence)
        (F64.add totalAmplitude amplitude) (F64.mul frequency 2)
  end.

Definition fractal (self : t) (octaves : nat) (persistence x y z : Q)
    (frequency : Q) : result Q :=
  vt <- fractal_loop self octaves persistence x y z 0 1 0 frequency ;;
  F64.div (fst vt) (snd vt).

End Perlin.

(** ** The script's settings, as [execute] reads them *)

Record Settings : Type := {
  minTemp : Q;
  maxTemp : Q;
  firstTemp : Q;
  grainSize : Q;
  maxUpward : Q;
  zOffset : Q;
  randomSeed : Z;
  spikinessPower : Q
}.

(** [noiseToTemp(noise, maxTemp, minTemp)] *)
Definition noiseToTemp (noise maxTemp minTemp : Q) : Q :=
  minTemp + noise * (maxTemp - minTemp).

(** [perlinToNormalizedWood(z, zOffset, grainSize, spikinessPower, perlin)];
    [math_pow] is [math.pow]. *)
Definition perlinToNormalizedWood (math_pow : Q -> Q -> result Q)
    (z zOffset grainSize spikinessPower : Q) (perlin : Perlin.t) : result Q :=
  let banding := 3 in
  let octaves := 2%nat in
  let persistence := F64.round (7 # 10) in
  arg <- F64.div (F64.add z zOffset) (F64.mul grainSize 2) ;;
  f <- Perlin.fractal perlin octaves persistence 0 0 arg 1 ;;
  let noise := F64.mul banding f in
  let noise := F64.sub noise (inject_Z (Qfloor noise)) in
  math_pow noise spikinessPower.

(** ** First pass: the heights visited by the toolpath *)

Module Pass1.

Record st : Type := {
  noises : Dict.t;
  formerZ : Q;
  thisZ : Q;
  absolute : bool
}.

(** The literal [0.1] *)
Definition minimumChangeZ : Q := F64.round (1 # 10).

Section Scan.

Variable math_pow : Q -> Q -> result Q.
Variable cfg : Settings.
Variable perlin : Perlin.t.

Definition sample (z : Q) : result Q :=
  perlinToNormalizedWood math_pow z (zOffset cfg) (grainSize cfg)
    (spikinessPower cfg) perlin.

(** The state before the first line: [noises[0]] is hard encoded. *)
Definition init : result st :=
  n0 <- sample 0 ;;
  Ok {| noises := Dict.set 0 n0 []; formerZ := - (1); thisZ := - (1);
        absolute := false |}.

(** The body of the loop over the lines of a layer. *)
Definition scan_line (s : st) (line : string) : result st :=
  let absolute := if Str.contains "G90" line then true else absolute s in
  let absolute := if Str.contains "G91" line then false else absolute in
  if absolute then
    let thisZ := getZ F64.round line (formerZ s) in
    if Qgtb thisZ (F64.add 2 (formerZ s)) then
      Ok {| noises := noises s; formerZ := thisZ; thisZ := thisZ;
            absolute := absolute |}
    else if Qgtb (Qabs (F64.sub thisZ (formerZ s))) minimumChangeZ then
      v <- sample thisZ ;;
      Ok {| noises := Dict.set thisZ v (noises s); formerZ := thisZ;
            thisZ := thisZ; absolute := absolute |}
    else
      Ok {| noises := noises s; formerZ := formerZ s; thisZ := thisZ;
            absolute := absolute |}
  else
    Ok {| noises := noises s; formerZ := formerZ s; thisZ := thisZ s;
          absolute := absolute |}.

Fixpoint scan_lines (s : st) (lines : list string) : result st :=
  match lines with
  | [] => Ok s
  | line :: lines' => s' <- scan_line s line ;; scan_lines s' lines'
  end.

Fixpoint scan_layers (s : st) (data : list string) : result st :=
  match data with
  | [] => Ok s
  | layer :: data' =>
      s' <- scan_lines s (Str.split layer) ;; scan_layers s' data'
  end.

(** The whole first pass. *)
Definition run (data : list string) : result st :=
  s <- init ;; scan_layers s data.

End Scan.

End Pass1.

(** ** Normalisation of the noise map *)

Module Normalize.

Definition noisesMax (noises : Dict.t) : result Q :=
  k <- Dict.max_key noises ;; Dict.item k noises.

Definition noisesMin (noises : Dict.t) : result Q :=
  k <- Dict.min_key noises ;; Dict.item k noises.

(** The loop [for z, v in noises.items(): noises[z] = ...]: every key is
    visited once, in order, and its entry overwritten in the same
    dictionary. *)
Fixpoint rescale (hi lo : Q) (items : list (Q * Q)) (noises : Dict.t)
    : result Dict.t :=
  match items with
  | [] => Ok noises
  | (z, _) :: items' =>
      v <- Dict.item z noises ;;
      q <- py_div (v - lo) (hi - lo) ;;
      rescale hi lo items' (Dict.set z q noises)
  end.

Definition run (noises : Dict.t) : result Dict.t :=
  hi <- noisesMax noises ;;
  lo <- noisesMin noises ;;
  rescale hi lo noises noises.

End Normalize.

(** ** Second pass: rewriting the layers *)

Module Pass2.

(** The variables of the second loop of [execute]. *)
Record st : Type := {
  layer : string;
  warmingTempCommands : string;
  savelayer : bool;
  skiplines : Z;
  thisZ : Q;
  formerZ : Q;
  postponedTempDelta : Q;
  postponedTempLast : option Q;
  graphStr : string
}.

(** The header block, built before the loop. *)
Definition warming (cfg : Settings) : string :=
  "M230 S0" ++ Str.eol
  ++ (if Qeq_bool (firstTemp cfg) 0
      then "M104 S" ++ Num.fmt_i (noiseToTemp 0 (maxTemp cfg) (minTemp cfg))
           ++ Str.eol
      else "M104 S" ++ Num.fmt_i (firstTemp cfg) ++ Str.eol)
  ++ "M230 S1" ++ Str.eol
  ++ "M116" ++ Str.eol.

(** The first line of the temperature graph. *)
Definition graph_header (cfg : Settings) : string :=
  ";WoodGraph: Wood temperature graph (from "
  ++ Repr.str_float (minTemp cfg) ++ "C to " ++ Repr.str_float (maxTemp cfg)
  ++ "C, grain size " ++ Repr.str_float (grainSize cfg) ++ "mm, z-offset "
  ++ Repr.str_float (zOffset cfg) ++ ")"
  ++ (if Qeq_bool (maxUpward cfg) 0 then ""
      else ", temperature increases capped at "
           ++ Repr.str_float (maxUpward cfg))
  ++ ":" ++ Str.eol.

Section Rewrite.

Variable cfg : Settings.
Variable noises : Dict.t.
Variable lastPatchZ : Q.

Definition init : st :=
  {| layer := ""; warmingTempCommands := warming cfg; savelayer := false;
     skiplines := 0%Z; thisZ := - (1); formerZ := - (1);
     postponedTempDelta := 0; postponedTempLast := None;
     graphStr := graph_header cfg |}.

(** The temperature of a scheduled transition, with the cap on upward
    changes: the result is [(temp, postponedTempDelta, postponedTempLast)]
    after the [else] branch. *)
Definition schedule (noise delta : Q) (last : option Q) : Q * Q * option Q :=
  let temp := noiseToTemp noise (maxTemp cfg) (minTemp cfg) in
  let temp := temp + delta in
  let delta := 0 in
  let '(delta, temp) :=
    match last with
    | Some l =>
        if Qgtb (maxUpward cfg) 0 && Qgtb temp (l + maxUpward cfg)
        then (temp - (l + maxUpward cfg), l + maxUpward cfg)
        else (delta, temp)
    | None => (delta, temp)
    end in
  let '(delta, temp) :=
    if Qgtb temp (maxTemp cfg) then (0, maxTemp cfg) else (delta, temp) in
  (temp, delta, Some temp).

(** The injected command. *)
Definition m104 (temp : Q) : string :=
  "M104 S" ++ Num.fmt_i temp ++ " ; Wood Grain" ++ Str.eol.

(** One row of the graph. *)
Definition graph_row (z temp : Q) (t : Z) : string :=
  ";WoodGraph: Z " ++ Num.fmt_f z ++ " "
  ++ "@" ++ Num.fmt_3i temp ++ "C | "
  ++ Str.repeat_char "#" (Z.to_nat t)
  ++ Str.repeat_char "." (Z.to_nat (20 - (t + 1))).

(** Whether the start temperature is kept for this height. *)
Definition keeps_first (z : Q) : bool :=
  negb (Qeq_bool (firstTemp cfg) 0) && Qle_bool z (1 # 2).

(** The body of [if thisZ != formerZ and thisZ in noises], [s] holding the
    new [thisZ]. *)
Definition transition (s : st) (line : string) : result st :=
  let z := thisZ s in
  ts <-
    (if keeps_first z then Ok (firstTemp cfg, s)
     else
       n <- Dict.item z noises ;;
       let '(temp, delta, last) :=
         schedule n (postponedTempDelta s) (postponedTempLast s) in
       Ok (temp,
           {| layer := Str.replace (layer s) line (line ++ Str.eol ++ m104 temp);
              warmingTempCommands := warmingTempCommands s;
              savelayer := true;
              skiplines := skiplines s;
              thisZ := z; formerZ := formerZ s;
              postponedTempDelta := delta; postponedTempLast := last;
              graphStr := graphStr s |})) ;;
  let '(temp, s) := ts in
  d <- py_div (19 * (temp - minTemp cfg)) (maxTemp cfg - minTemp cfg) ;;
  let t := Num.int d in
  Ok {| layer := layer s;
        warmingTempCommands := warmingTempCommands s;
        savelayer := savelayer s;
        skiplines := skiplines s;
        thisZ := z; formerZ := z;
        postponedTempDelta := postponedTempDelta s;
        postponedTempLast := postponedTempLast s;
        graphStr := graphStr s ++ graph_row z temp t ++ Str.eol |}.

Definition set_thisZ (s : st) (z : Q) : st :=
  {| layer := layer s; warmingTempCommands := warmingTempCommands s;
     savelayer := savelayer s; skiplines := skiplines s;
     thisZ := z; formerZ := formerZ s;
     postponedTempDelta := postponedTempDelta s;
     postponedTempLast := postponedTempLast s; graphStr := graphStr s |}.

(** The body of the loop over the lines of a layer. *)
Definition rewrite_line (s : st) (line : string) : result st :=
  if Str.contains "; set extruder " (Str.lower line) then
    Ok {| layer := Str.replace (layer s) line
                     (line ++ Str.eol ++ warmingTempCommands s);
          warmingTempCommands := "";
          savelayer := true;
          skiplines := skiplines s; thisZ := thisZ s; formerZ := formerZ s;
          postponedTempDelta := postponedTempDelta s;
          postponedTempLast := postponedTempLast s; graphStr := graphStr s |}
  else if (skiplines s >? 0)%Z then
    Ok {| layer := layer s; warmingTempCommands := warmingTempCommands s;
          savelayer := savelayer s;
          skiplines := (skiplines s - 1)%Z;
          thisZ := thisZ s; formerZ := formerZ s;
          postponedTempDelta := postponedTempDelta s;
          postponedTempLast := postponedTempLast s; graphStr := graphStr s |}
  else if Str.contains ";woodified" (Str.lower line) then
    Ok {| layer := layer s; warmingTempCommands := warmingTempCommands s;
          savelayer := savelayer s;
          skiplines := 4%Z;
          thisZ := thisZ s; formerZ := formerZ s;
          postponedTempDelta := postponedTempDelta s;
          postponedTempLast := postponedTempLast s; graphStr := graphStr s |}
  else if negb (Str.contains ";woodgraph" (Str.lower line)) then
    if Qeq_bool (thisZ s) lastPatchZ then Ok s
    else if negb (Str.contains "m104" (Str.lower line)) then
      let z := getZ F64.round line (formerZ s) in
      if negb (Qeq_bool z (formerZ s)) && Dict.mem z noises
      then transition (set_thisZ s z) line
      else Ok (set_thisZ s z)
    else Ok s
  else Ok s.

Fixpoint rewrite_lines (s : st) (lines : list string) : result st :=
  match lines with
  | [] => Ok s
  | line :: lines' => s' <- rewrite_line s line ;; rewrite_lines s' lines'
  end.

End Rewrite.

End Pass2.

(** ** [execute] *)

(** What the caller observes: the list [data], mutated in place, after a
    normal return or at the point where an exception escapes. *)
Inductive outcome : Type :=
| Returned (data : list string)
| Raised (e : exn) (data : list string).

(** [data[index] = v], for an index in range. *)
Fixpoint setitem (data : list string) (index : nat) (v : string)
    : list string :=
  match data, index with
  | [], _ => []
  | _ :: data', O => v :: data'
  | x :: data', S i => x :: setitem data' i v
  end.

Module Exec.

Section Execute.

Variable math_pow : Q -> Q -> result Q.
Variable cfg : Settings.

(** The second loop over [enumerate(data)].  [todo] are the layers from
    [index] on, which the store [data] still holds unchanged; [header]
    is the flag of the same name.  The result is the store, the loop
    variables and the last index. *)
Fixpoint rewrite_layers (noises : Dict.t) (lastPatchZ : Q)
    (todo : list string) (index : nat) (header : bool)
    (data : list string) (s : Pass2.st)
    : exn * list string + list string * Pass2.st * nat :=
  match todo with
  | [] => inr (data, s, (index - 1)%nat)
  | layer0 :: todo' =>
      let layer :=
        if header then Pass2.warmingTempCommands s ++ layer0 else layer0 in
      let data := if header then setitem data index layer else data in
      let s :=
        {| Pass2.layer := layer;
           Pass2.warmingTempCommands := Pass2.warmingTempCommands s;
           Pass2.savelayer := Pass2.savelayer s;
           Pass2.skiplines := Pass2.skiplines s;
           Pass2.thisZ := Pass2.thisZ s;
           Pass2.formerZ := Pass2.formerZ s;
           Pass2.postponedTempDelta := Pass2.postponedTempDelta s;
           Pass2.postponedTempLast := Pass2.postponedTempLast s;
           Pass2.graphStr := Pass2.graphStr s |} in
      match Pass2.rewrite_lines cfg noises lastPatchZ s (Str.split layer) with
      | Raise e => inl (e, data)
      | Ok s' =>
          let data :=
            if Pass2.savelayer s'
            then setitem data index (Pass2.layer s') else data in
          let s' :=
            {| Pass2.layer := Pass2.layer s';
               Pass2.warmingTempCommands := Pass2.warmingTempCommands s';
               Pass2.savelayer := false;
               Pass2.skiplines := Pass2.skiplines s';
               Pass2.thisZ := Pass2.thisZ s';
               Pass2.formerZ := Pass2.formerZ s';
               Pass2.postponedTempDelta := Pass2.postponedTempDelta s';
               Pass2.postponedTempLast := Pass2.postponedTempLast s';
               Pass2.graphStr := Pass2.graphStr s' |} in
          rewrite_layers noises lastPatchZ todo' (S index) false data s'
      end
  end.

(** [execute(data)]; [shuffled] is the permutation drawn by the
    constructor of [Perlin]. *)
Definition execute (shuffled : list Z) (data : list string) : outcome :=
  let perlin := Perlin.init 256 shuffled in
  match Pass1.run math_pow cfg perlin data with
  | Raise e => Raised e data
  | Ok s1 =>
      let lastPatchZ := Pass1.thisZ s1 in
      match Normalize.run (Pass1.noises s1) with
      | Raise e => Raised e data
      | Ok noises =>
          match
            rewrite_layers noises lastPatchZ data 0 true data (Pass2.init cfg)
          with
          | inl (e, data') => Raised e data'
          | inr (data', s, index) =>
              match data with
              | [] => Raised UnboundLocalError data'
              | _ :: _ =>
                  Returned
                    (setitem data' index
                       (Pass2.layer s ++ Pass2.graphStr s ++ Str.eol))
              end
          end
      end
  end.

End Execute.

End Exec.

(** [math.pow] at the exponent of the sample settings below, which all
    have [spikinessPower = 1]: [math.pow(x, 1.0)] is [x] for every float.
    It stands for [math.pow] at that exponent only. *)
Definition pow_exponent_one (x _ : Q) : result Q := Ok x.

(** A permutation of [range(256)], standing for one draw of the shuffle. *)
Definition sample_shuffle : list Z :=
  map (fun i => (Z.of_nat i * 37 + 11) mod 256)%Z (seq 0 256).


(** ** The states of the second pass

    The states the loop variables go through: the initial one, a state
    after one more line, and a state at the start of a next layer, where
    [layer] is loaded and [savelayer] has been cleared. *)

Inductive reachable (cfg : Settings) (noises : Dict.t) (lastPatchZ : Q)
    : Pass2.st -> Prop :=
| reach_init : reachable cfg noises lastPatchZ (Pass2.init cfg)
| reach_line s line s' :
    reachable cfg noises lastPatchZ s ->
    Pass2.rewrite_line cfg noises lastPatchZ s line = Ok s' ->
    reachable cfg noises lastPatchZ s'
| reach_layer s l b :
    reachable cfg noises lastPatchZ s ->
    reachable cfg noises lastPatchZ
      {| Pass2.layer := l;
         Pass2.warmingTempCommands := Pass2.warmingTempCommands s;
         Pass2.savelayer := b;
         Pass2.skiplines := Pass2.skiplines s;
         Pass2.thisZ := Pass2.thisZ s;
         Pass2.formerZ := Pass2.formerZ s;
         Pass2.postponedTempDelta := Pass2.postponedTempDelta s;
         Pass2.postponedTempLast := Pass2.postponedTempLast s;
         Pass2.graphStr := Pass2.graphStr s |}.

(** The positioning mode of the first pass once [line] has been looked at. *)
Definition mode_after (absolute : bool) (line : string) : bool :=
  let absolute := if Str.contains "G90" line then true else absolute in
  if Str.contains "G91" line then false else absolute.

(** ** Sample inputs *)

Definition cfg_default : Settings :=
  {| minTemp := 180; maxTemp := 230; firstTemp := 0; grainSize := 3;
     maxUpward := 0; zOffset := 1; randomSeed := 1; spikinessPower := 1 |}.

(** The same with a cap of 5 degrees on upward changes. *)
Definition cfg_capped : Settings :=
  {| minTemp := 180; maxTemp := 230; firstTemp := 0; grainSize := 3;
     maxUpward := 5; zOffset := 1; randomSeed := 1; spikinessPower := 1 |}.

(** The same with a start temperature of 200 degrees. *)
Definition cfg_first : Settings :=
  {| minTemp := 180; maxTemp := 230; firstTemp := 200; grainSize := 3;
     maxUpward := 5; zOffset := 1; randomSeed := 1; spikinessPower := 1 |}.

(** One layer with three absolute Z moves. *)
Definition data_three : list string :=
  ["G90" ++ Str.eol ++ "G1 Z0.3" ++ Str.eol ++ "G1 X1 Y1" ++ Str.eol
   ++ "G1 Z0.6" ++ Str.eol ++ "G1 Z0.9" ++ Str.eol].

(** The heights of [data_three]: the doubles nearest to 0.3, 0.6 and
    0.9. *)
Definition height_03 : Q := Eval vm_compute in F64.round (3 # 10).
Definition height_06 : Q := Eval vm_compute in F64.round (6 # 10).
Definition height_09 : Q := Eval vm_compute in F64.round (9 # 10).

(** The normalised noises of [data_three]. *)
Definition noises_three : Dict.t :=
  Eval vm_compute in
  match
    Pass1.run pow_exponent_one cfg_default (Perlin.init 256 sample_shuffle)
      data_three
  with
  | Ok s =>
      match Normalize.run (Pass1.noises s) with
      | Ok d => d
      | Raise _ => []
      end
  | Raise _ => []
  end.

(** The raw noises of [data_three], before normalisation. *)
Definition raw_three : Dict.t :=
  Eval vm_compute in
  match
    Pass1.run pow_exponent_one cfg_default (Perlin.init 256 sample_shuffle)
      data_three
  with
  | Ok s => Pass1.noises s
  | Raise _ => []
  end.

Definition raw_three_min : Q :=
  Eval vm_compute in
  match Normalize.noisesMin raw_three with Ok v => v | Raise _ => 0 end.

Definition raw_three_max : Q :=
  Eval vm_compute in
  match Normalize.noisesMax raw_three with Ok v => v | Raise _ => 0 end.

(** The variables of the second loop at the start of a layer that switches
    to relative mode and moves Z, height 0.3 having been handled. *)
Definition state_relative_layer : Pass2.st :=
  {| Pass2.layer := "G91" ++ Str.eol ++ "G1 Z0.6" ++ Str.eol;
     Pass2.warmingTempCommands := Pass2.warming cfg_default;
     Pass2.savelayer := false;
     Pass2.skiplines := 0%Z;
     Pass2.thisZ := height_03;
     Pass2.formerZ := height_03;
     Pass2.postponedTempDelta := 0;
     Pass2.postponedTempLast := Some 180;
     Pass2.graphStr := Pass2.graph_header cfg_default |}.

(** Equal minimum and maximum temperatures. *)
Definition cfg_flat : Settings :=
  {| minTemp := 200; maxTemp := 200; firstTemp := 0; grainSize := 3;
     maxUpward := 0; zOffset := 1; randomSeed := 1; spikinessPower := 1 |}.

(** A negative grain size. *)
Definition cfg_negative_grain : Settings :=
  {| minTemp := 180; maxTemp := 230; firstTemp := 0; grainSize := - (3);
     maxUpward := 0; zOffset := 1; randomSeed := 1; spikinessPower := 1 |}.

(** A zero grain size. *)
Definition cfg_zero_grain : Settings :=
  {| minTemp := 180; maxTemp := 230; firstTemp := 0; grainSize := 0;
     maxUpward := 0; zOffset := 1; randomSeed := 1; spikinessPower := 1 |}.

(** A text from its lines, each followed by a newline. *)
Definition text (lines : list string) : string :=
  fold_right (fun line acc => line ++ Str.eol ++ acc) "" lines.

(** How many lines of [s] are exactly [line]. *)
Definition count_line (line s : string) : nat :=
  count_occ string_dec (Str.split s) line.

(** [data_three] after one run with [cfg_default]. *)
Definition once_three : string :=
  text
    ["M230 S0";
     "M104 S180";
     "M230 S1";
     "M116";
     "G90";
     "G1 Z0.3";
     "M104 S180 ; Wood Grain";
     "";
     "G1 X1 Y1";
     "G1 Z0.6";
     "M104 S188 ; Wood Grain";
     "";
     "G1 Z0.9";
     "M104 S190 ; Wood Grain";
     "";
     ";WoodGraph: Wood temperature graph (from 180.0C to 230.0C, grain size 3.0mm, z-offset 1.0):";
     ";WoodGraph: Z 0.300000 @180C | ...................";
     ";WoodGraph: Z 0.600000 @188C | ###................";
     ";WoodGraph: Z 0.900000 @190C | ####...............";
     ""].

(** [once_three] after a second run with the same settings and the same
    permutation. *)
Definition twice_three : string :=
  text
    ["M230 S0";
     "M104 S180";
     "M230 S1";
     "M116";
     "M230 S0";
     "M104 S180";
     "M230 S1";
     "M116";
     "G90";
     "G1 Z0.3";
     "M104 S180 ; Wood Grain";
     "";
     "M104 S180 ; Wood Grain";
     "";
     "G1 X1 Y1";
     "G1 Z0.6";
     "M104 S188 ; Wood Grain";
     "";
     "M104 S188 ; Wood Grain";
     "";
     "G1 Z0.9";
     "M104 S190 ; Wood Grain";
     "";
     "M104 S190 ; Wood Grain";
     "";
     ";WoodGraph: Wood temperature graph (from 180.0C to 230.0C, grain size 3.0mm, z-offset 1.0):";
     ";WoodGraph: Z 0.300000 @180C | ...................";
     ";WoodGraph: Z 0.600000 @188C | ###................";
     ";WoodGraph: Z 0.900000 @190C | ####...............";
     "";
     ";WoodGraph: Wood temperature graph (from 180.0C to 230.0C, grain size 3.0mm, z-offset 1.0):";
     ";WoodGraph: Z 0.300000 @180C | ...................";
     ";WoodGraph: Z 0.600000 @188C | ###................";
     ";WoodGraph: Z 0.900000 @190C | ####...............";
     ""].

(** ** Auxiliary definitions *)

(** A table as the constructor of [Perlin] leaves it: [tiledim] entries
    of [range(tiledim)], copied twice. *)
Definition shuffle_ok (shuffled : list Z) : Prop :=
  List.length shuffled = 256%nat /\
  Forall (fun v => (0 <= v < 256)%Z) shuffled.

(** [c in s] for a character. *)
Fixpoint has_char (c : ascii) (s : string) : bool :=
  match s with
  | EmptyString => false
  | String a s' => Ascii.eqb a c || has_char c s'
  end.

(** Every character of [s] passes the test [f]. *)
Fixpoint all_chars (f : ascii -> bool) (s : string) : bool :=
  match s with
  | EmptyString => true
  | String a s' => f a && all_chars f s'
  end.

(** [s] is empty or ends with a newline. *)
Fixpoint ends_lines (s : string) : bool :=
  match s with
  | EmptyString => true
  | String a EmptyString => Ascii.eqb a Str.nl
  | String _ s' => ends_lines s'
  end.

(** The characters of the header block: neither the [G] that a move needs
    nor the [;] that starts a comment. *)
Definition plain_char (c : ascii) : bool :=
  negb (Ascii.eqb c "G") && negb (Ascii.eqb c ";").

(** The startup block as the script builds it: the temperature is the
    start temperature when it is non-zero, and [minTemp] otherwise. *)
Definition startup_block (cfg : Settings) : string :=
  "M230 S0" ++ Str.eol
  ++ "M104 S"
  ++ Num.fmt_i (if Qeq_bool (firstTemp cfg) 0 then minTemp cfg
                else firstTemp cfg)
  ++ Str.eol
  ++ "M230 S1" ++ Str.eol
  ++ "M116" ++ Str.eol.


(** The entries of a dictionary whose values are rescaled by [f]. *)
Definition map_values (f : Q -> Q) (d : Dict.t) : Dict.t :=
  map (fun kv => (fst kv, f (snd kv))) d.


(** [line] holds neither of the markers that the second pass looks for
    before anything else. *)
Definition unmarked (line : string) : Prop :=
  Str.contains "; set extruder " (Str.lower line) = false /\
  Str.contains ";woodified" (Str.lower line) = false.


(** ** Enclosures

    Intervals with rational bounds that enclose the result of a rounded
    operation for operands within intervals: rounding being monotone, the
    bounds of the exact result are rounded. *)

Module Ival.

Definition t : Type := (Q * Q)%type.

(** [x] is within [i]. *)
Definition mem (x : Q) (i : t) : Prop := fst i <= x <= snd i.

Definition point (c : Q) : t := (c, c).

Definition qmin (a b : Q) : Q := if Qle_bool a b then a else b.
Definition qmax (a b : Q) : Q := if Qle_bool a b then b else a.

Definition round (i : t) : t := (F64.round (fst i), F64.round (snd i)).

Definition opp (i : t) : t := (- snd i, - fst i).

Definition add (i j : t) : t :=
  (F64.add (fst i) (fst j), F64.add (snd i) (snd j)).

Definition sub (i j : t) : t :=
  (F64.sub (fst i) (snd j), F64.sub (snd i) (fst j)).

Definition mul (i j : t) : t :=
  let ll := fst i * fst j in
  let lh := fst i * snd j in
  let hl := snd i * fst j in
  let hh := snd i * snd j in
  (F64.round (qmin (qmin ll lh) (qmin hl hh)),
   F64.round (qmax (qmax ll lh) (qmax hl hh))).

Definition subset (i j : t) : bool :=
  Qle_bool (fst j) (fst i) && Qle_bool (snd i) (snd j).

(** [Perlin.fade] and [Perlin.lerp] on intervals. *)
Definition fade (i : t) : t :=
  mul (mul (mul i i) i)
    (add (mul i (sub (mul i (point 6)) (point 15))) (point 10)).

Definition lerp (i a b : t) : t := add a (mul i (sub b a)).

End Ival.

(** The noise on the axis [x = y = 0], for a fractional part [z] of the
    height and the gradients [g0] and [g1] at the two corners it lies
    between: the other corners have a null weight, and each of the two
    goes through two blends of null weight. *)
Definition noise_on_axis (z g0 g1 : Q) : Q :=
  Perlin.lerp (Perlin.fade z)
    (F64.round (F64.round g0)) (F64.round (F64.round g1)).

Definition axis_enclosure (z g0 g1 : Ival.t) : Ival.t :=
  Ival.lerp (Ival.fade z)
    (Ival.round (Ival.round g0)) (Ival.round (Ival.round g1)).

(** On the axis a gradient is the rounded sum of a null coordinate and of
    [z], [-z] or another null coordinate. *)
Definition axis_grads (z : Ival.t) : list Ival.t :=
  map Ival.round [Ival.point 0; z; Ival.opp z].

(** The [k]-th of the 16 pieces of [[0, 1]]. *)
Definition axis_piece (k : Z) : Ival.t :=
  (inject_Z k / 16, (inject_Z k + 1) / 16).

(** * Properties *)

(** ** Comparisons *)

Lemma Qltb_true (a b : Q) : Qltb a b = true <-> a < b.
Proof.
  unfold Qltb. rewrite negb_true_iff.
  split; intro H.
  - apply Qnot_le_lt. intro L. apply Qle_bool_iff in L. congruence.
  - destruct (Qle_bool b a) eqn:E; [|reflexivity].
    apply Qle_bool_iff in E. lra.
Qed.

Lemma Qltb_false (a b : Q) : Qltb a b = false <-> b <= a.
Proof.
  unfold Qltb. rewrite negb_false_iff. apply Qle_bool_iff.
Qed.

Lemma Qgtb_true (a b : Q) : Qgtb a b = true <-> b < a.
Proof. apply Qltb_true. Qed.

Lemma Qgtb_false (a b : Q) : Qgtb a b = false <-> a <= b.
Proof. apply Qltb_false. Qed.

Lemma Qeq_bool_false (a b : Q) : Qeq_bool a b = false <-> ~ a == b.
Proof.
  split; intro H.
  - intro E. apply Qeq_bool_iff in E. congruence.
  - destruct (Qeq_bool a b) eqn:E; [|reflexivity].
    apply Qeq_bool_iff in E. contradiction.
Qed.

(** Turns the boolean tests of the hypotheses into propositions. *)
Ltac reflect_tests :=
  repeat match goal with
    | H : Qgtb _ _ = true |- _ => apply Qgtb_true in H
    | H : Qgtb _ _ = false |- _ => apply Qgtb_false in H
    | H : Qltb _ _ = true |- _ => apply Qltb_true in H
    | H : Qltb _ _ = false |- _ => apply Qltb_false in H
    | H : Qle_bool _ _ = true |- _ => apply Qle_bool_iff in H
    | H : Qeq_bool _ _ = true |- _ => apply Qeq_bool_iff in H
    | H : Qeq_bool _ _ = false |- _ => apply Qeq_bool_false in H
    | H : _ && _ = true |- _ => apply andb_true_iff in H; destruct H
    | H : negb _ = true |- _ => apply negb_true_iff in H
    | H : negb _ = false |- _ => apply negb_false_iff in H
    end.

(** [int] of a non-negative float is its floor. *)
Lemma int_nonneg_bounds (x : Q) :
  0 <= x -> inject_Z (Num.int x) <= x /\ x < inject_Z (Num.int x) + 1.
Proof.
  intro H.
  assert (E : Num.int x = Qfloor x).
  { destruct x as [n d]. unfold Num.int, Qfloor. simpl.
    apply Z.quot_div_nonneg; [|reflexivity].
    unfold Qle in H. simpl in H. lia. }
  rewrite E. split; [apply Qfloor_le|].
  pose proof (Qlt_floor x) as L. rewrite inject_Z_plus in L. exact L.
Qed.

(** ** Rounding to the nearest double *)

Section RoundFacts.

Lemma rhe_cases (x : Q) :
  (Num.round_half_even x = Qfloor x /\ x - inject_Z (Qfloor x) <= 1 # 2) \/
  (Num.round_half_even x = (Qfloor x + 1)%Z /\ 1 # 2 <= x - inject_Z (Qfloor x)).
Proof.
  unfold Num.round_half_even.
  destruct (Qcompare_spec (x - inject_Z (Qfloor x)) (1 # 2)) as [E|L|G].
  - destruct (Z.even (Qfloor x)); [left|right]; split; try reflexivity;
      rewrite E; apply Qle_refl.
  - left. split; [reflexivity|apply Qlt_le_weak; exact L].
  - right. split; [reflexivity|apply Qlt_le_weak; exact G].
Qed.

Lemma rhe_compat (x y : Q) : x == y -> Num.round_half_even x = Num.round_half_even y.
Proof.
  intro E. unfold Num.round_half_even.
  rewrite (Qfloor_comp _ _ E).
  assert (R : x - inject_Z (Qfloor y) == y - inject_Z (Qfloor y))
    by (rewrite E; reflexivity).
  rewrite (Qcompare_comp _ _ R (1 # 2) (1 # 2) (Qeq_refl _)). reflexivity.
Qed.

Lemma rhe_Z (n : Z) : Num.round_half_even (inject_Z n) = n.
Proof.
  unfold Num.round_half_even. rewrite Qfloor_Z.
  assert (R : inject_Z n - inject_Z n == 0) by ring.
  rewrite (Qcompare_comp _ _ R (1 # 2) (1 # 2) (Qeq_refl _)). reflexivity.
Qed.

Lemma rhe_le (x y : Q) : x <= y -> (Num.round_half_even x <= Num.round_half_even y)%Z.
Proof.
  intro L.
  pose proof (Qfloor_resp_le _ _ L) as F.
  destruct (Z.eq_dec (Qfloor x) (Qfloor y)) as [E|N].
  - unfold Num.round_half_even. rewrite E.
    destruct (Qcompare_spec (x - inject_Z (Qfloor y)) (1 # 2)) as [A|A|A];
    destruct (Qcompare_spec (y - inject_Z (Qfloor y)) (1 # 2)) as [B|B|B];
      try destruct (Z.even (Qfloor y)); try lia; exfalso; lra.
  - destruct (rhe_cases x) as [[-> _]|[-> _]];
    destruct (rhe_cases y) as [[-> _]|[-> _]]; lia.
Qed.

Lemma pow2_pos (e : Z) : 0 < 2 ^ e.
Proof. apply Qpower_0_lt. reflexivity. Qed.

Lemma pow2_add (a b : Z) : 2 ^ (a + b) == 2 ^ a * 2 ^ b.
Proof. apply Qpower_plus. discriminate. Qed.

Lemma pow2_le (a b : Z) : (a <= b)%Z -> 2 ^ a <= 2 ^ b.
Proof. intro H. apply Qpower_le_compat_l; [exact H|discriminate]. Qed.

Lemma pow2_lt_inv (a b : Z) : 2 ^ a < 2 ^ b -> (a < b)%Z.
Proof. intro H. apply (Qpower_lt_compat_l_inv 2); [exact H|reflexivity]. Qed.

Lemma pow2_Z (e : Z) : (0 <= e)%Z -> 2 ^ e == inject_Z (2 ^ e).
Proof. intro H. rewrite Zpower_Qpower by exact H. reflexivity. Qed.

Lemma ilog2_spec (x : Q) :
  ~ x == 0 -> 2 ^ F64.ilog2 x <= Qabs x < 2 ^ (F64.ilog2 x + 1).
Proof.
  intro N. unfold F64.ilog2.
  set (n := Z.abs (Qnum x)). set (d := Zpos (Qden x)).
  set (e := (Z.log2 n - Z.log2 d)%Z).
  assert (Hn : (0 < n)%Z).
  { unfold n. destruct x as [[|p|p] q]; try reflexivity.
    exfalso. apply N. reflexivity. }
  assert (Hd : (0 < d)%Z) by reflexivity.
  pose proof (Z.log2_spec n Hn) as [Ln Un].
  pose proof (Z.log2_spec d Hd) as [Ld Ud].
  pose proof (Z.log2_nonneg n) as Pn. pose proof (Z.log2_nonneg d) as Pd.
  assert (A : Qabs x == inject_Z n / inject_Z d).
  { unfold n, d. destruct x as [a b]. simpl Qabs. apply Qmake_Qdiv. }
  assert (Dq : 0 < inject_Z d) by reflexivity.
  assert (Ln' : 2 ^ Z.log2 n <= inject_Z n).
  { rewrite pow2_Z by exact Pn. rewrite <- Zle_Qle. exact Ln. }
  assert (Un' : inject_Z n < 2 ^ (Z.log2 n + 1)).
  { rewrite pow2_Z by lia. rewrite <- Zlt_Qlt. rewrite <- Z.add_1_r in Un.
    exact Un. }
  assert (Ld' : 2 ^ Z.log2 d <= inject_Z d).
  { rewrite pow2_Z by exact Pd. rewrite <- Zle_Qle. exact Ld. }
  assert (Ud' : inject_Z d < 2 ^ (Z.log2 d + 1)).
  { rewrite pow2_Z by lia. rewrite <- Zlt_Qlt. rewrite <- Z.add_1_r in Ud.
    exact Ud. }
  assert (Lo : 2 ^ (e - 1) <= Qabs x).
  { rewrite A. apply Qle_shift_div_l; [exact Dq|].
    apply Qle_trans with (2 ^ (e - 1) * 2 ^ (Z.log2 d + 1)).
    - apply Qmult_le_l; [apply pow2_pos|apply Qlt_le_weak; exact Ud'].
    - rewrite <- pow2_add.
      replace (e - 1 + (Z.log2 d + 1))%Z with (Z.log2 n) by (unfold e; lia).
      exact Ln'. }
  assert (Up : Qabs x < 2 ^ (e + 1)).
  { rewrite A. apply Qlt_shift_div_r; [exact Dq|].
    apply Qlt_le_trans with (2 ^ (e + 1) * 2 ^ Z.log2 d).
    - rewrite <- pow2_add.
      replace (e + 1 + Z.log2 d)%Z with (Z.log2 n + 1)%Z by (unfold e; lia).
      exact Un'.
    - apply Qmult_le_l; [apply pow2_pos|exact Ld']. }
  destruct (Qle_bool (2 ^ e) (Qabs x)) eqn:B.
  - apply Qle_bool_iff in B. split; assumption.
  - assert (L : Qabs x < 2 ^ e).
    { apply Qnot_le_lt. intro H. apply Qle_bool_iff in H. congruence. }
    replace (e - 1 + 1)%Z with e by lia. split; assumption.
Qed.

Lemma ilog2_unique (a : Q) (e e' : Z) :
  2 ^ e <= a < 2 ^ (e + 1) -> 2 ^ e' <= a < 2 ^ (e' + 1) -> e = e'.
Proof.
  intros [A B] [A' B'].
  assert (X : (e < e' + 1)%Z).
  { apply pow2_lt_inv. apply Qle_lt_trans with a; assumption. }
  assert (Y : (e' < e + 1)%Z).
  { apply pow2_lt_inv. apply Qle_lt_trans with a; assumption. }
  lia.
Qed.

Lemma ilog2_compat (x y : Q) : x == y -> ~ x == 0 -> F64.ilog2 x = F64.ilog2 y.
Proof.
  intros E N.
  assert (N' : ~ y == 0) by (rewrite <- E; exact N).
  pose proof (ilog2_spec x N) as Sx. pose proof (ilog2_spec y N') as Sy.
  pose proof (Qabs_wd _ _ E) as A. destruct Sy as [Ly Uy].
  apply (ilog2_unique (Qabs x) _ _ Sx). split; lra.
Qed.

Lemma ilog2_le (x y : Q) : 0 < x -> x <= y -> (F64.ilog2 x <= F64.ilog2 y)%Z.
Proof.
  intros P L.
  assert (Nx : ~ x == 0) by lra. assert (Ny : ~ y == 0) by lra.
  pose proof (ilog2_spec x Nx) as [Ax _].
  pose proof (ilog2_spec y Ny) as [_ By].
  rewrite Qabs_pos in Ax by lra. rewrite Qabs_pos in By by lra.
  assert (X : (F64.ilog2 x < F64.ilog2 y + 1)%Z).
  { apply pow2_lt_inv. lra. }
  lia.
Qed.

Lemma nearest_compat (x y : Q) :
  x == y -> ~ x == 0 -> F64.nearest x = F64.nearest y.
Proof.
  intros E N. unfold F64.nearest, F64.quantum.
  rewrite (ilog2_compat x y E N).
  f_equal. f_equal. apply rhe_compat. rewrite E. reflexivity.
Qed.

Lemma round_compat (x y : Q) : x == y -> F64.round x = F64.round y.
Proof.
  intro E. unfold F64.round.
  rewrite (Qcompare_comp _ _ E 0 0 (Qeq_refl _)).
  destruct (Qcompare_spec y 0) as [Z0|L|G]; [reflexivity| |].
  - f_equal. apply nearest_compat; [rewrite E; reflexivity|lra].
  - apply nearest_compat; [exact E|lra].
Qed.

Lemma round_0 : F64.round 0 = 0.
Proof. reflexivity. Qed.

Lemma round_opp (x : Q) : F64.round (- x) == - F64.round x.
Proof.
  unfold F64.round.
  destruct (Qcompare_spec x 0) as [Z0|L|G];
  destruct (Qcompare_spec (- x) 0) as [Z1|L1|G1]; try (exfalso; lra).
  - reflexivity.
  - rewrite Qopp_involutive. reflexivity.
  - rewrite (nearest_compat (- - x) x); [reflexivity|ring|lra].
Qed.

Lemma nearest_nonneg (x : Q) : 0 <= x -> 0 <= F64.nearest x.
Proof.
  intro P. unfold F64.nearest.
  apply Qmult_le_0_compat; [|apply Qlt_le_weak, pow2_pos].
  change 0 with (inject_Z 0). rewrite <- Zle_Qle.
  rewrite <- (rhe_Z 0). apply rhe_le. change (inject_Z 0) with 0.
  apply Qle_shift_div_l; [apply pow2_pos|]. lra.
Qed.

(** Between two positive numbers on different grids lies a power of two
    that both grids hold. *)
Lemma nearest_le (x y : Q) : 0 < x -> x <= y -> F64.nearest x <= F64.nearest y.
Proof.
  intros P L.
  assert (Nx : ~ x == 0) by lra. assert (Ny : ~ y == 0) by lra.
  pose proof (ilog2_le x y P L) as E.
  pose proof (ilog2_spec x Nx) as [Ax Bx].
  pose proof (ilog2_spec y Ny) as [Ay By].
  rewrite Qabs_pos in Ax, Bx by lra. rewrite Qabs_pos in Ay, By by lra.
  unfold F64.nearest.
  set (qx := F64.quantum x). set (qy := F64.quantum y).
  assert (Q1 : (qx <= qy)%Z) by (unfold qx, qy, F64.quantum; lia).
  destruct (Z.eq_dec qx qy) as [Qe|Qn].
  - rewrite <- Qe. apply Qmult_le_r; [apply pow2_pos|].
    rewrite <- Zle_Qle. apply rhe_le.
    apply Qmult_le_r; [apply Qinv_lt_0_compat, pow2_pos|exact L].
  - assert (Qy : qy = (F64.ilog2 y - 52)%Z)
      by (unfold qx, qy, F64.quantum in *; lia).
    assert (Ex : (F64.ilog2 x + 1 <= F64.ilog2 y)%Z)
      by (unfold qx, qy, F64.quantum in *; lia).
    set (C := 2 ^ F64.ilog2 y).
    apply Qle_trans with C.
    + assert (D : C == inject_Z (2 ^ (F64.ilog2 y - qx)) * 2 ^ qx).
      { rewrite <- pow2_Z by lia. rewrite <- pow2_add. unfold C.
        replace (F64.ilog2 y - qx + qx)%Z with (F64.ilog2 y) by lia.
        reflexivity. }
      rewrite D. apply Qmult_le_r; [apply pow2_pos|].
      rewrite <- Zle_Qle.
      rewrite <- (rhe_Z (2 ^ (F64.ilog2 y - qx))). apply rhe_le.
      apply Qle_shift_div_r; [apply pow2_pos|]. rewrite <- D. unfold C.
      apply Qle_trans with (2 ^ (F64.ilog2 x + 1));
        [apply Qlt_le_weak; exact Bx|apply pow2_le; exact Ex].
    + assert (D : C == inject_Z (2 ^ 52) * 2 ^ qy).
      { rewrite <- pow2_Z by lia. rewrite <- pow2_add. unfold C.
        replace (52 + qy)%Z with (F64.ilog2 y) by lia. reflexivity. }
      rewrite D. apply Qmult_le_r; [apply pow2_pos|].
      rewrite <- Zle_Qle.
      rewrite <- (rhe_Z (2 ^ 52)) at 1. apply rhe_le.
      apply Qle_shift_div_l; [apply pow2_pos|]. rewrite <- D. exact Ay.
Qed.

Lemma round_nonneg (x : Q) : 0 <= x -> 0 <= F64.round x.
Proof.
  intro P. unfold F64.round.
  destruct (Qcompare_spec x 0) as [Z0|L|G]; [apply Qle_refl|lra|].
  apply nearest_nonneg. exact P.
Qed.

Lemma round_le (x y : Q) : x <= y -> F64.round x <= F64.round y.
Proof.
  intro L.
  destruct (Qlt_le_dec 0 x) as [Px|Nx].
  - unfold F64.round.
    destruct (Qcompare_spec x 0) as [?|?|_]; try (exfalso; lra).
    destruct (Qcompare_spec y 0) as [?|?|_]; try (exfalso; lra).
    apply nearest_le; assumption.
  - destruct (Qlt_le_dec y 0) as [Ny|Py].
    + assert (H : F64.round (- y) <= F64.round (- x)).
      { unfold F64.round.
        destruct (Qcompare_spec (- y) 0) as [?|?|_]; try (exfalso; lra).
        destruct (Qcompare_spec (- x) 0) as [?|?|_]; try (exfalso; lra).
        apply nearest_le; lra. }
      rewrite !round_opp in H. lra.
    + apply Qle_trans with 0; [|apply round_nonneg; exact Py].
      assert (H : 0 <= F64.round (- x)) by (apply round_nonneg; lra).
      rewrite round_opp in H. lra.
Qed.

Lemma round_1 : F64.round 1 == 1.
Proof. reflexivity. Qed.

Lemma Qabs_round (x : Q) : Qabs (F64.round x) == F64.round (Qabs x).
Proof.
  destruct (Qlt_le_dec x 0) as [N|P].
  - assert (H : 0 <= F64.round (- x)) by (apply round_nonneg; lra).
    rewrite (round_compat (Qabs x) (- x)) by (apply Qabs_neg; lra).
    rewrite round_opp in H. rewrite Qabs_neg by lra.
    rewrite round_opp. reflexivity.
  - rewrite (round_compat (Qabs x) x) by (apply Qabs_pos; exact P).
    apply Qabs_pos. apply round_nonneg. exact P.
Qed.



End RoundFacts.

(** ** The scheduler *)

Section Scheduler.

Variable cfg : Settings.

Lemma schedule_cases (n delta : Q) (last : option Q) :
  let base := noiseToTemp n (maxTemp cfg) (minTemp cfg) + delta in
  exists temp delta',
    Pass2.schedule cfg n delta last = (temp, delta', Some temp) /\
    0 <= delta' /\
    temp <= maxTemp cfg /\
    (forall l, last = Some l -> 0 < maxUpward cfg ->
       l + maxUpward cfg < base ->
       (l + maxUpward cfg <= maxTemp cfg ->
          temp = l + maxUpward cfg /\
          delta' = base - (l + maxUpward cfg)) /\
       (maxTemp cfg < l + maxUpward cfg ->
          temp = maxTemp cfg /\ delta' = 0)) /\
    ((forall l, last = Some l ->
        ~ (0 < maxUpward cfg /\ l + maxUpward cfg < base)) ->
       (base <= maxTemp cfg -> temp = base /\ delta' = 0) /\
       (maxTemp cfg < base -> temp = maxTemp cfg /\ delta' = 0)).
Proof.
  intro base. unfold Pass2.schedule. fold base.
  destruct last as [l|].
  - destruct (Qgtb (maxUpward cfg) 0 && Qgtb base (l + maxUpward cfg)) eqn:C.
    + reflect_tests.
      destruct (Qgtb (l + maxUpward cfg) (maxTemp cfg)) eqn:M; reflect_tests;
        do 2 eexists; (split; [reflexivity|]);
        (split; [lra|]); (split; [lra|]); split.
      all: try (intros l' E U B; injection E as <-; split; intro;
                first [split; reflexivity | exfalso; lra]).
      all: intros N; exfalso; apply (N l eq_refl); split; assumption.
    + assert (N : ~ (0 < maxUpward cfg /\ l + maxUpward cfg < base)).
      { intros [U B]. apply Qgtb_true in U, B.
        rewrite U, B in C. discriminate. }
      destruct (Qgtb base (maxTemp cfg)) eqn:M; reflect_tests;
        do 2 eexists; (split; [reflexivity|]);
        (split; [lra|]); (split; [lra|]); split.
      all: try (intros l' E U B; injection E as <-; exfalso; apply N;
                split; assumption).
      all: intros _; split; intro;
        first [split; reflexivity | exfalso; lra].
  - destruct (Qgtb base (maxTemp cfg)) eqn:M; reflect_tests;
      do 2 eexists; (split; [reflexivity|]);
      (split; [lra|]); (split; [lra|]); split.
    all: try discriminate.
    all: intros _; split; intro;
      first [split; reflexivity | exfalso; lra].
Qed.
(** The scheduled temperature is not below [minTemp] when the previous
    one was not. *)
Lemma schedule_lower (n delta : Q) (last : option Q) (temp d' : Q)
    (l' : option Q) :
  minTemp cfg <= maxTemp cfg ->
  0 <= n ->
  0 <= delta ->
  (forall l, last = Some l -> minTemp cfg <= l) ->
  Pass2.schedule cfg n delta last = (temp, d', l') ->
  minTemp cfg <= temp.
Proof.
  intros Hr Hn Hd Hl. unfold Pass2.schedule, noiseToTemp.
  assert (B : minTemp cfg <= minTemp cfg + n * (maxTemp cfg - minTemp cfg)
                             + delta) by nra.
  set (base := minTemp cfg + n * (maxTemp cfg - minTemp cfg) + delta) in *.
  destruct last as [l|].
  - specialize (Hl l eq_refl).
    destruct (Qgtb (maxUpward cfg) 0 && Qgtb base (l + maxUpward cfg)) eqn:C.
    + reflect_tests.
      destruct (Qgtb (l + maxUpward cfg) (maxTemp cfg)) eqn:M; reflect_tests;
        intro S; injection S as <- _ _; lra.
    + destruct (Qgtb base (maxTemp cfg)) eqn:M; reflect_tests;
        intro S; injection S as <- _ _; lra.
  - destruct (Qgtb base (maxTemp cfg)) eqn:M; reflect_tests;
      intro S; injection S as <- _ _; lra.
Qed.

End Scheduler.

(** ** Transitions of the second pass *)

Section Transitions.

Variable cfg : Settings.
Variable noises : Dict.t.
Variable lastPatchZ : Q.

(** A transition that keeps the start temperature changes [formerZ] and the
    graph only. *)
Lemma transition_keeps_first (s : Pass2.st) (line : string) (s' : Pass2.st) :
  Pass2.keeps_first cfg (Pass2.thisZ s) = true ->
  Pass2.transition cfg noises s line = Ok s' ->
  exists t,
    s' = {| Pass2.layer := Pass2.layer s;
            Pass2.warmingTempCommands := Pass2.warmingTempCommands s;
            Pass2.savelayer := Pass2.savelayer s;
            Pass2.skiplines := Pass2.skiplines s;
            Pass2.thisZ := Pass2.thisZ s;
            Pass2.formerZ := Pass2.thisZ s;
            Pass2.postponedTempDelta := Pass2.postponedTempDelta s;
            Pass2.postponedTempLast := Pass2.postponedTempLast s;
            Pass2.graphStr :=
              Pass2.graphStr s
              ++ Pass2.graph_row (Pass2.thisZ s) (firstTemp cfg) t
              ++ Str.eol |}.
Proof.
  intros K T. unfold Pass2.transition in T. rewrite K in T. simpl in T.
  destruct (py_div _ _) as [d|e]; simpl in T; [|discriminate].
  injection T as <-. eexists. reflexivity.
Qed.

(** A scheduled transition: the state after it, from the result of
    [schedule]. *)
Lemma transition_scheduled (s : Pass2.st) (line : string) (s' : Pass2.st) :
  Pass2.keeps_first cfg (Pass2.thisZ s) = false ->
  Pass2.transition cfg noises s line = Ok s' ->
  exists n temp t,
    Dict.get (Pass2.thisZ s) noises = Some n /\
    Pass2.schedule cfg n (Pass2.postponedTempDelta s)
      (Pass2.postponedTempLast s)
    = (temp, Pass2.postponedTempDelta s', Pass2.postponedTempLast s') /\
    s' = {| Pass2.layer :=
              Str.replace (Pass2.layer s) line
                (line ++ Str.eol ++ Pass2.m104 temp);
            Pass2.warmingTempCommands := Pass2.warmingTempCommands s;
            Pass2.savelayer := true;
            Pass2.skiplines := Pass2.skiplines s;
            Pass2.thisZ := Pass2.thisZ s;
            Pass2.formerZ := Pass2.thisZ s;
            Pass2.postponedTempDelta := Pass2.postponedTempDelta s';
            Pass2.postponedTempLast := Pass2.postponedTempLast s';
            Pass2.graphStr :=
              Pass2.graphStr s
              ++ Pass2.graph_row (Pass2.thisZ s) temp t ++ Str.eol |}.
Proof.
  intros K T. unfold Pass2.transition in T. rewrite K in T.
  unfold Dict.item in T.
  destruct (Dict.get (Pass2.thisZ s) noises) as [n|]; simpl in T;
    [|discriminate].
  destruct (Pass2.schedule cfg n _ _) as [[temp delta] last] eqn:S.
  simpl in T.
  destruct (py_div _ _) as [d|e]; simpl in T; [|discriminate].
  injection T as <-. exists n, temp, (Num.int d). simpl. auto.
Qed.

(** What a line does to the scheduler's two variables: nothing, or one
    call of [schedule] on the noise of a height of the map. *)
Lemma rewrite_line_scheduler (s : Pass2.st) (line : string) (s' : Pass2.st) :
  Pass2.rewrite_line cfg noises lastPatchZ s line = Ok s' ->
  (Pass2.postponedTempDelta s' = Pass2.postponedTempDelta s /\
   Pass2.postponedTempLast s' = Pass2.postponedTempLast s)
  \/ exists z n temp,
       Dict.get z noises = Some n /\
       Pass2.schedule cfg n (Pass2.postponedTempDelta s)
         (Pass2.postponedTempLast s)
       = (temp, Pass2.postponedTempDelta s', Pass2.postponedTempLast s').
Proof.
  unfold Pass2.rewrite_line. intro R.
  repeat match type of R with
    | (if ?c then _ else _) = _ => destruct c
    end;
    try (injection R as <-; left; split; reflexivity).
  set (s0 := Pass2.set_thisZ s _) in R.
  destruct (Pass2.keeps_first cfg (Pass2.thisZ s0)) eqn:K.
  - destruct (transition_keeps_first _ _ _ K R) as [t ->]. left. auto.
  - destruct (transition_scheduled _ _ _ K R) as (n & temp & t & G & S & _).
    right. exists (Pass2.thisZ s0), n, temp. auto.
Qed.

(** The postponed delta is never negative. *)
Lemma reachable_delta_nonneg (s : Pass2.st) :
  reachable cfg noises lastPatchZ s -> 0 <= Pass2.postponedTempDelta s.
Proof.
  induction 1 as [|s line s' _ IH R|s l b _ IH]; simpl; try lra; auto.
  destruct (rewrite_line_scheduler _ _ _ R) as [[-> _]|(z & n & temp & _ & S)];
    [assumption|].
  destruct (schedule_cases cfg n (Pass2.postponedTempDelta s)
              (Pass2.postponedTempLast s)) as (t & d & E & D & _).
  rewrite E in S. injection S as _ <- _. exact D.
Qed.

(** With a well-ordered range and normalised noises, the last scheduled
    temperature is never below [minTemp]. *)
Lemma reachable_last_lower (s : Pass2.st) :
  minTemp cfg <= maxTemp cfg ->
  (forall k v, Dict.get k noises = Some v -> 0 <= v <= 1) ->
  reachable cfg noises lastPatchZ s ->
  forall l, Pass2.postponedTempLast s = Some l -> minTemp cfg <= l.
Proof.
  intros Hr Hn. induction 1 as [|s line s' Hs IH R|s l b _ IH]; simpl;
    try discriminate; auto.
  destruct (rewrite_line_scheduler _ _ _ R) as [[_ ->]|(z & n & temp & G & S)];
    [assumption|].
  pose proof (reachable_delta_nonneg _ Hs) as D.
  pose proof (Hn _ _ G) as Hv.
  intros l E. rewrite E in S.
  pose proof (schedule_lower cfg n _ _ _ _ _ Hr (proj1 Hv) D IH S) as L.
  destruct (schedule_cases cfg n (Pass2.postponedTempDelta s)
              (Pass2.postponedTempLast s)) as (t & d & E' & _).
  rewrite E' in S. injection S as -> _ ->. exact L.
Qed.

End Transitions.

(** ** The states [execute] goes through *)

Section ExecuteStates.

Variable cfg : Settings.
Variable noises : Dict.t.
Variable lastPatchZ : Q.

Lemma rewrite_lines_reachable (lines : list string) (s s' : Pass2.st) :
  reachable cfg noises lastPatchZ s ->
  Pass2.rewrite_lines cfg noises lastPatchZ s lines = Ok s' ->
  reachable cfg noises lastPatchZ s'.
Proof.
  revert s. induction lines as [|line lines IH]; simpl; intros s Hs E.
  - injection E as <-. exact Hs.
  - destruct (Pass2.rewrite_line cfg noises lastPatchZ s line) as [s1|] eqn:R;
      simpl in E; [|discriminate].
    exact (IH s1 (reach_line _ _ _ _ _ _ Hs R) E).
Qed.

(** The variables left by the loop over the layers are a reachable state;
    so is every state in between, each being the result of a prefix of the
    lines. *)
Lemma rewrite_layers_reachable (todo : list string) (index : nat)
    (header : bool) (data : list string) (s : Pass2.st)
    (data' : list string) (s' : Pass2.st) (idx : nat) :
  reachable cfg noises lastPatchZ s ->
  Exec.rewrite_layers cfg noises lastPatchZ todo index header data s
  = inr (data', s', idx) ->
  reachable cfg noises lastPatchZ s'.
Proof.
  revert index header data s.
  induction todo as [|l todo IH]; intros index header data s Hs; simpl.
  - intro E. injection E as _ <- _. exact Hs.
  - match goal with
    | |- context [Pass2.rewrite_lines _ _ _ ?s0 ?ls] =>
        destruct (Pass2.rewrite_lines cfg noises lastPatchZ s0 ls)
          as [s1|] eqn:R; [|discriminate];
        assert (H1 : reachable cfg noises lastPatchZ s1)
          by (apply (rewrite_lines_reachable ls s0 s1);
              [apply reach_layer; exact Hs|exact R])
    end.
    apply IH. apply (reach_layer _ _ _ s1 (Pass2.layer s1) false H1).
Qed.

End ExecuteStates.

(** ** Claims on the scheduler *)



(** C3.  Temperature bounds.  With [minTemp <= maxTemp] and every
    normalised noise in [0, 1], the temperature of every command injected
    by a scheduled transition lies between [minTemp] and [maxTemp]; the
    integer the command prints, [int(temp)], is then at most [maxTemp] and
    less than one degree below [minTemp], for a non-negative [minTemp]. *)
Theorem C3_temperature_bounds
    (cfg : Settings) (noises : Dict.t) (lastPatchZ : Q)
    (s : Pass2.st) (z : Q) (line : string) (s' : Pass2.st) :
  minTemp cfg <= maxTemp cfg ->
  (forall k v, Dict.get k noises = Some v -> 0 <= v <= 1) ->
  reachable cfg noises lastPatchZ s ->
  Pass2.keeps_first cfg z = false ->
  Pass2.transition cfg noises (Pass2.set_thisZ s z) line = Ok s' ->
  exists temp,
    Pass2.layer s'
    = Str.replace (Pass2.layer s) line (line ++ Str.eol ++ Pass2.m104 temp) /\
    minTemp cfg <= temp <= maxTemp cfg /\
    (0 <= minTemp cfg ->
     minTemp cfg - 1 < inject_Z (Num.int temp) <= maxTemp cfg).
Proof.
  intros Hr Hn Hs K T.
  destruct (transition_scheduled cfg noises (Pass2.set_thisZ s z) line s' K T)
    as (n & temp & t & G & S & E).
  simpl in G, S.
  exists temp. split; [rewrite E; reflexivity|].
  assert (L : minTemp cfg <= temp).
  { eapply schedule_lower; [exact Hr| | | |exact S].
    - apply (Hn _ _ G).
    - exact (reachable_delta_nonneg _ _ _ _ Hs).
    - exact (reachable_last_lower _ _ _ _ Hr Hn Hs). }
  assert (U : temp <= maxTemp cfg).
  { destruct (schedule_cases cfg n (Pass2.postponedTempDelta s)
                (Pass2.postponedTempLast s)) as (temp' & d' & E' & _ & U & _).
    rewrite E' in S. injection S as -> _ _. exact U. }
  split; [split; assumption|].
  intro P. destruct (int_nonneg_bounds temp) as [A B]; lra.
Qed.

Lemma C3_temperature_bounds_witness :
  minTemp cfg_capped <= maxTemp cfg_capped /\
  (forall k v, Dict.get k noises_three = Some v -> 0 <= v <= 1) /\
  reachable cfg_capped noises_three height_09 (Pass2.init cfg_capped) /\
  Pass2.keeps_first cfg_capped height_06 = false /\
  exists s' temp,
    Pass2.transition cfg_capped noises_three
      (Pass2.set_thisZ (Pass2.init cfg_capped) height_06) "G1 Z0.6" = Ok s' /\
    Pass2.layer s'
    = Str.replace "" "G1 Z0.6" ("G1 Z0.6" ++ Str.eol ++ Pass2.m104 temp) /\
    180 <= temp <= 230.
Proof.
  assert (R : minTemp cfg_capped <= maxTemp cfg_capped)
    by (vm_compute; discriminate).
  assert (N : forall k v, Dict.get k noises_three = Some v -> 0 <= v <= 1).
  { intros k v. unfold noises_three, Dict.get.
    repeat match goal with
      | |- context [Qeq_bool ?a k] => destruct (Qeq_bool a k)
      end;
      intro E; try discriminate; injection E as <-;
      split; vm_compute; discriminate. }
  split; [exact R|]. split; [exact N|].
  split; [apply reach_init|]. split; [reflexivity|].
  eexists.
  match goal with
  | |- exists temp, ?t = Ok ?s' /\ _ =>
      assert (T : t = Ok s') by (vm_compute; reflexivity);
      destruct (C3_temperature_bounds cfg_capped noises_three height_09
                  (Pass2.init cfg_capped) height_06 "G1 Z0.6" s'
                  R N (reach_init _ _ _) eq_refl T) as (temp & L & B & _)
  end.
  exists temp. split; [exact T|]. split; [exact L|exact B].
Defined.

(** C6, as amended.  A transition at a height of at most 0.5 mm with a
    non-zero start temperature takes the start temperature unmodified for
    its graph row; it injects no command and leaves the scheduler's last
    temperature and postponed delta as they were. *)
Theorem C6_start_temperature_bypass
    (cfg : Settings) (noises : Dict.t)
    (s : Pass2.st) (z : Q) (line : string) (s' : Pass2.st) :
  ~ firstTemp cfg == 0 ->
  z <= 1 # 2 ->
  Pass2.transition cfg noises (Pass2.set_thisZ s z) line = Ok s' ->
  Pass2.layer s' = Pass2.layer s /\
  Pass2.savelayer s' = Pass2.savelayer s /\
  Pass2.postponedTempLast s' = Pass2.postponedTempLast s /\
  Pass2.postponedTempDelta s' = Pass2.postponedTempDelta s /\
  Pass2.formerZ s' = z /\
  exists t,
    Pass2.graphStr s'
    = Pass2.graphStr s ++ Pass2.graph_row z (firstTemp cfg) t ++ Str.eol.
Proof.
  intros F Z T.
  assert (K : Pass2.keeps_first cfg z = true).
  { unfold Pass2.keeps_first. apply andb_true_iff. split.
    - apply negb_true_iff, Qeq_bool_false, F.
    - apply Qle_bool_iff, Z. }
  destruct (transition_keeps_first cfg noises (Pass2.set_thisZ s z) line s'
              K T) as [t ->].
  simpl. repeat split. exists t. reflexivity.
Qed.

Lemma C6_start_temperature_bypass_witness :
  ~ firstTemp cfg_first == 0 /\
  height_03 <= 1 # 2 /\
  exists s',
    Pass2.transition cfg_first noises_three
      (Pass2.set_thisZ (Pass2.init cfg_first) height_03) "G1 Z0.3" = Ok s' /\
    Pass2.postponedTempLast s' = None.
Proof.
  assert (F : ~ firstTemp cfg_first == 0) by (vm_compute; discriminate).
  assert (Z : height_03 <= 1 # 2) by (vm_compute; discriminate).
  split; [exact F|]. split; [exact Z|].
  eexists.
  match goal with
  | |- ?t = Ok ?s' /\ _ =>
      assert (T : t = Ok s') by (vm_compute; reflexivity);
      destruct (C6_start_temperature_bypass cfg_first noises_three
                  (Pass2.init cfg_first) height_03 "G1 Z0.3" s' F Z T)
        as (_ & _ & L & _)
  end.
  split; [exact T|exact L].
Defined.

(** C6, as stated, fails: with a start temperature of 200 the transition
    at height 0.3 leaves the last temperature unset. *)
Lemma C6_counterexample :
  Pass2.keeps_first cfg_first height_03 = true /\
  exists s',
    Pass2.transition cfg_first noises_three
      (Pass2.set_thisZ (Pass2.init cfg_first) height_03) "G1 Z0.3" = Ok s' /\
    Pass2.postponedTempLast s' = None /\
    Pass2.postponedTempLast s' <> Some (firstTemp cfg_first).
Proof.
  split; [reflexivity|].
  eexists. split; [vm_compute; reflexivity|].
  split; [reflexivity|discriminate].
Qed.

(** ** Dictionaries *)

Section DictFacts.

Lemma Qeq_bool_comm (a b : Q) : Qeq_bool a b = Qeq_bool b a.
Proof.
  destruct (Qeq_bool a b) eqn:E, (Qeq_bool b a) eqn:F; try reflexivity;
    reflect_tests.
  - exfalso. apply F. symmetry. exact E.
  - exfalso. apply E. symmetry. exact F.
Qed.

Lemma Qeq_bool_trans_false (a b c : Q) :
  Qeq_bool a b = true -> Qeq_bool a c = false -> Qeq_bool b c = false.
Proof.
  intros E F. reflect_tests. apply Qeq_bool_false. intro G. apply F.
  rewrite E. exact G.
Qed.

(** Looking up an equal key gives the same entry. *)
Lemma get_compat (k k' : Q) (d : Dict.t) :
  Qeq_bool k k' = true -> Dict.get k d = Dict.get k' d.
Proof.
  intro E. induction d as [|[a v] d IH]; simpl; [reflexivity|].
  rewrite IH.
  destruct (Qeq_bool a k) eqn:A, (Qeq_bool a k') eqn:B; try reflexivity;
    reflect_tests; exfalso.
  - apply B. rewrite A. exact E.
  - apply A. rewrite B. symmetry. exact E.
Qed.

Lemma keys_set_present (k v : Q) (d : Dict.t) :
  Dict.mem k d = true -> Dict.keys (Dict.set k v d) = Dict.keys d.
Proof.
  unfold Dict.mem, Dict.keys.
  induction d as [|[a w] d IH]; simpl; [discriminate|].
  destruct (Qeq_bool a k); simpl; [reflexivity|].
  intro M. rewrite IH by exact M. reflexivity.
Qed.

Lemma get_set_same (k v : Q) (d : Dict.t) :
  Dict.get k (Dict.set k v d) = Some v.
Proof.
  induction d as [|[a w] d IH]; simpl.
  - rewrite (proj2 (Qeq_bool_iff k k)) by reflexivity. reflexivity.
  - destruct (Qeq_bool a k) eqn:A; simpl; rewrite A; [reflexivity|exact IH].
Qed.

Lemma get_set_other (k k' v : Q) (d : Dict.t) :
  Qeq_bool k k' = false ->
  Dict.get k' (Dict.set k v d) = Dict.get k' d.
Proof.
  intro N. induction d as [|[a w] d IH]; simpl.
  - rewrite N. reflexivity.
  - destruct (Qeq_bool a k) eqn:A; simpl.
    + rewrite (Qeq_bool_trans_false k a k'); [|rewrite Qeq_bool_comm; exact A|exact N].
      reflexivity.
    + rewrite IH. reflexivity.
Qed.

(** Assignment keeps the keys distinct. *)
Lemma wf_set (k v : Q) (d : Dict.t) : Dict.wf d -> Dict.wf (Dict.set k v d).
Proof.
  induction d as [|[a w] d IH]; simpl.
  - auto.
  - intros [G W]. destruct (Qeq_bool a k) eqn:A; simpl.
    + auto.
    + split; [|exact (IH W)].
      rewrite get_set_other; [exact G|].
      rewrite Qeq_bool_comm. exact A.
Qed.

Lemma get_map_values (f : Q -> Q) (k : Q) (d : Dict.t) :
  Dict.get k (map_values f d) = option_map f (Dict.get k d).
Proof.
  induction d as [|[a w] d IH]; simpl; [reflexivity|].
  destruct (Qeq_bool a k); [reflexivity|exact IH].
Qed.

Lemma keys_map_values (f : Q -> Q) (d : Dict.t) :
  Dict.keys (map_values f d) = Dict.keys d.
Proof.
  unfold Dict.keys, map_values. rewrite map_map. reflexivity.
Qed.

Lemma get_app (k : Q) (d1 d2 : Dict.t) :
  Dict.get k (d1 ++ d2)%list
  = match Dict.get k d1 with Some v => Some v | None => Dict.get k d2 end.
Proof.
  induction d1 as [|[a w] d1 IH]; simpl; [reflexivity|].
  destruct (Qeq_bool a k); [reflexivity|exact IH].
Qed.

Lemma set_app_absent (k v : Q) (d1 d2 : Dict.t) :
  Dict.get k d1 = None -> Dict.set k v (d1 ++ d2)%list = (d1 ++ Dict.set k v d2)%list.
Proof.
  induction d1 as [|[a w] d1 IH]; simpl; [reflexivity|].
  destruct (Qeq_bool a k); [discriminate|].
  intro G. rewrite IH by exact G. reflexivity.
Qed.

(** In a well-formed dictionary, a key that comes later is absent from
    what comes before. *)
Lemma wf_app_absent (d1 : Dict.t) (k v : Q) (d2 : Dict.t) :
  Dict.wf (d1 ++ (k, v) :: d2)%list -> Dict.get k d1 = None.
Proof.
  induction d1 as [|[a w] d1 IH]; simpl; [reflexivity|].
  intros [G W]. rewrite get_app in G.
  destruct (Dict.get a d1) eqn:E; [discriminate|].
  simpl in G. destruct (Qeq_bool k a) eqn:K; [discriminate|].
  rewrite Qeq_bool_comm, K. exact (IH W).
Qed.

End DictFacts.

(** ** Normalisation *)

Section NormalizeFacts.

Lemma get_in (k v : Q) (d : Dict.t) :
  Dict.get k d = Some v -> exists k', In (k', v) d.
Proof.
  induction d as [|[a w] d IH]; simpl; [discriminate|].
  destruct (Qeq_bool a k).
  - intro E. injection E as ->. exists a. left. reflexivity.
  - intro G. destruct (IH G) as [k' I]. exists k'. right. exact I.
Qed.

Lemma wf_get_in (k v : Q) (d : Dict.t) :
  Dict.wf d -> In (k, v) d -> Dict.get k d = Some v.
Proof.
  induction d as [|[a w] d IH]; simpl; [contradiction|].
  intros [G W] [E|I].
  - injection E as -> ->.
    rewrite (proj2 (Qeq_bool_iff k k)) by reflexivity. reflexivity.
  - specialize (IH W I).
    destruct (Qeq_bool a k) eqn:A; [|exact IH].
    rewrite (get_compat a k d A) in G. congruence.
Qed.

Lemma max_from_spec (best : Q * Q) (d : Dict.t) :
  In (Dict.max_from best d) (best :: d) /\
  snd best <= snd (Dict.max_from best d) /\
  forall kv, In kv d -> snd kv <= snd (Dict.max_from best d).
Proof.
  revert best. induction d as [|kv d IH]; intro best; simpl.
  - split; [left; reflexivity|]. split; [lra|contradiction].
  - destruct (IH (if Qltb (snd best) (snd kv) then kv else best))
      as (I & B & A).
    split; [|split].
    + destruct I as [I|I]; [|right; right; exact I].
      destruct (Qltb (snd best) (snd kv)); rewrite <- I; auto.
    + destruct (Qltb (snd best) (snd kv)) eqn:C; reflect_tests;
        simpl in *; lra.
    + intros kv' [<-|I'].
      * destruct (Qltb (snd best) (snd kv)) eqn:C; reflect_tests;
          simpl in *; lra.
      * exact (A kv' I').
Qed.

Lemma min_from_spec (best : Q * Q) (d : Dict.t) :
  In (Dict.min_from best d) (best :: d) /\
  snd (Dict.min_from best d) <= snd best /\
  forall kv, In kv d -> snd (Dict.min_from best d) <= snd kv.
Proof.
  revert best. induction d as [|kv d IH]; intro best; simpl.
  - split; [left; reflexivity|]. split; [lra|contradiction].
  - destruct (IH (if Qltb (snd kv) (snd best) then kv else best))
      as (I & B & A).
    split; [|split].
    + destruct I as [I|I]; [|right; right; exact I].
      destruct (Qltb (snd kv) (snd best)); rewrite <- I; auto.
    + destruct (Qltb (snd kv) (snd best)) eqn:C; reflect_tests;
        simpl in *; lra.
    + intros kv' [<-|I'].
      * destruct (Qltb (snd kv) (snd best)) eqn:C; reflect_tests;
          simpl in *; lra.
      * exact (A kv' I').
Qed.

(** [noisesMax] is a value of the dictionary and bounds all of them. *)
Lemma noisesMax_spec (d : Dict.t) (hi : Q) :
  Dict.wf d ->
  Normalize.noisesMax d = Ok hi ->
  (exists k, Dict.get k d = Some hi) /\
  forall k v, Dict.get k d = Some v -> v <= hi.
Proof.
  intros W. unfold Normalize.noisesMax, Dict.max_key.
  destruct d as [|kv d]; simpl bind; [discriminate|].
  destruct (max_from_spec kv d) as (I & B & A).
  set (r := Dict.max_from kv d) in *.
  rewrite (surjective_pairing r) in I.
  unfold Dict.item. rewrite (wf_get_in _ _ _ W I).
  intro E. injection E as <-. split.
  - exists (fst r). exact (wf_get_in _ _ _ W I).
  - intros k v G. destruct (get_in _ _ _ G) as [k' [E|I']].
    + rewrite E in B. exact B.
    + exact (A _ I').
Qed.

(** [noisesMin] is a value of the dictionary and bounds all of them. *)
Lemma noisesMin_spec (d : Dict.t) (lo : Q) :
  Dict.wf d ->
  Normalize.noisesMin d = Ok lo ->
  (exists k, Dict.get k d = Some lo) /\
  forall k v, Dict.get k d = Some v -> lo <= v.
Proof.
  intros W. unfold Normalize.noisesMin, Dict.min_key.
  destruct d as [|kv d]; simpl bind; [discriminate|].
  destruct (min_from_spec kv d) as (I & B & A).
  set (r := Dict.min_from kv d) in *.
  rewrite (surjective_pairing r) in I.
  unfold Dict.item. rewrite (wf_get_in _ _ _ W I).
  intro E. injection E as <-. split.
  - exists (fst r). exact (wf_get_in _ _ _ W I).
  - intros k v G. destruct (get_in _ _ _ G) as [k' [E|I']].
    + rewrite E in B. exact B.
    + exact (A _ I').
Qed.

(** The loop of the normalisation rescales every value once. *)
Lemma rescale_map (hi lo : Q) (items pre : Dict.t) :
  ~ hi - lo == 0 ->
  Dict.wf (pre ++ items)%list ->
  Normalize.rescale hi lo items
    (map_values (fun v => (v - lo) / (hi - lo)) pre ++ items)%list
  = Ok (map_values (fun v => (v - lo) / (hi - lo)) (pre ++ items)%list).
Proof.
  intro N. revert pre. induction items as [|[z v] items IH]; intros pre W.
  - simpl. rewrite !app_nil_r. reflexivity.
  - simpl Normalize.rescale.
    pose proof (wf_app_absent _ _ _ _ W) as A.
    assert (A' : Dict.get z (map_values (fun v => (v - lo) / (hi - lo)) pre)
                 = None)
      by (rewrite get_map_values, A; reflexivity).
    unfold Dict.item. rewrite get_app, A'. simpl Dict.get.
    rewrite (proj2 (Qeq_bool_iff z z)) by reflexivity. simpl bind.
    unfold py_div. rewrite (proj2 (Qeq_bool_false _ _) N). simpl bind.
    rewrite set_app_absent by exact A'. simpl Dict.set.
    rewrite (proj2 (Qeq_bool_iff z z)) by reflexivity.
    specialize (IH (pre ++ [(z, v)])%list).
    rewrite <- app_assoc in IH. simpl app in IH.
    unfold map_values in *. rewrite map_app in IH. simpl map in IH.
    rewrite <- app_assoc in IH. simpl app in IH.
    exact (IH W).
Qed.

Lemma scaled_bounds (lo hi v : Q) :
  lo < hi -> lo <= v <= hi -> 0 <= (v - lo) / (hi - lo) <= 1.
Proof.
  intros L [A B].
  assert (P : 0 < hi - lo) by lra.
  split.
  - apply Qle_shift_div_l; [exact P|lra].
  - apply Qle_shift_div_r; [exact P|lra].
Qed.

(** Whenever the normalisation returns, its values lie in [[0, 1]]. *)
Lemma run_bounds (d d' : Dict.t) :
  Dict.wf d ->
  Normalize.run d = Ok d' ->
  forall k v, Dict.get k d' = Some v -> 0 <= v <= 1.
Proof.
  intros W. unfold Normalize.run.
  destruct (Normalize.noisesMax d) as [hi|] eqn:Hhi; simpl bind;
    [|discriminate].
  destruct (Normalize.noisesMin d) as [lo|] eqn:Hlo; simpl bind;
    [|discriminate].
  destruct (noisesMin_spec _ _ W Hlo) as [[kmin Gmin] Blo].
  destruct (noisesMax_spec _ _ W Hhi) as [[kmax Gmax] Bhi].
  pose proof (Blo _ _ Gmax) as L.
  destruct (Qeq_bool (hi - lo) 0) eqn:Z.
  - destruct d as [|[z v] d]; [discriminate|].
    simpl. unfold Dict.item. simpl.
    rewrite (proj2 (Qeq_bool_iff z z)) by reflexivity. simpl.
    unfold py_div. rewrite Z. discriminate.
  - reflect_tests.
    pose proof (rescale_map hi lo d [] Z W) as R. simpl in R. rewrite R.
    intro E. injection E as <-. intros k v G.
    rewrite get_map_values in G.
    destruct (Dict.get k d) as [w|] eqn:Gw; [|discriminate].
    injection G as <-. apply scaled_bounds; [lra|].
    split; [exact (Blo _ _ Gw)|exact (Bhi _ _ Gw)].
Qed.

End NormalizeFacts.

(** C8.  Normalisation bounds.  When the largest value of the noise map
    strictly exceeds the smallest, the normalisation returns a map with the
    same keys, whose values all lie in [0, 1], one of them being 0 and one
    of them 1. *)
Theorem C8_normalization_bounds (noises : Dict.t) (lo hi : Q) :
  Dict.wf noises ->
  Normalize.noisesMin noises = Ok lo ->
  Normalize.noisesMax noises = Ok hi ->
  lo < hi ->
  exists normalized,
    Normalize.run noises = Ok normalized /\
    Dict.keys normalized = Dict.keys noises /\
    (forall h v, Dict.get h normalized = Some v -> 0 <= v <= 1) /\
    (exists h v, Dict.get h normalized = Some v /\ v == 0) /\
    (exists h v, Dict.get h normalized = Some v /\ v == 1).
Proof.
  intros W Hlo Hhi L.
  destruct (noisesMin_spec _ _ W Hlo) as [[kmin Gmin] Blo].
  destruct (noisesMax_spec _ _ W Hhi) as [[kmax Gmax] Bhi].
  set (f := fun v : Q => (v - lo) / (hi - lo)).
  exists (map_values f noises).
  assert (N : ~ hi - lo == 0) by lra.
  split; [|split; [|split; [|split]]].
  - unfold Normalize.run. rewrite Hhi, Hlo. simpl bind.
    exact (rescale_map hi lo noises [] N W).
  - apply keys_map_values.
  - intros h v G. rewrite get_map_values in G.
    destruct (Dict.get h noises) as [w|] eqn:E; [|discriminate].
    injection G as <-. apply scaled_bounds; [exact L|].
    split; [exact (Blo _ _ E)|exact (Bhi _ _ E)].
  - exists kmin, (f lo). rewrite get_map_values, Gmin. split; [reflexivity|].
    unfold f. field. exact N.
  - exists kmax, (f hi). rewrite get_map_values, Gmax. split; [reflexivity|].
    unfold f. field. exact N.
Qed.

Lemma C8_normalization_bounds_witness :
  Dict.wf raw_three /\
  Normalize.noisesMin raw_three = Ok raw_three_min /\
  Normalize.noisesMax raw_three = Ok raw_three_max /\
  raw_three_min < raw_three_max /\
  exists normalized,
    Normalize.run raw_three = Ok normalized /\
    Dict.keys normalized = [0; height_03; height_06; height_09].
Proof.
  assert (W : Dict.wf raw_three) by (vm_compute; repeat split).
  assert (A : Normalize.noisesMin raw_three = Ok raw_three_min)
    by (vm_compute; reflexivity).
  assert (B : Normalize.noisesMax raw_three = Ok raw_three_max)
    by (vm_compute; reflexivity).
  assert (L : raw_three_min < raw_three_max) by (vm_compute; reflexivity).
  destruct (C8_normalization_bounds raw_three _ _ W A B L)
    as (normalized & R & K & _).
  repeat (split; [assumption|]).
  exists normalized. split; [exact R|]. rewrite K. reflexivity.
Defined.

(** ** The first pass *)

Section FirstPass.

Variable math_pow : Q -> Q -> result Q.
Variable cfg : Settings.
Variable perlin : Perlin.t.

Lemma scan_line_mode (s s' : Pass1.st) (line : string) :
  Pass1.scan_line math_pow cfg perlin s line = Ok s' ->
  Pass1.absolute s' = mode_after (Pass1.absolute s) line.
Proof.
  unfold Pass1.scan_line, mode_after.
  destruct (Str.contains "G90" line), (Str.contains "G91" line),
    (Pass1.absolute s); simpl;
    repeat match goal with
      | |- context [if ?c then _ else _] => destruct c
      | |- context [bind ?m _] => destruct m; simpl
      end;
    intro E; try discriminate; injection E as <-; reflexivity.
Qed.

(** A line leaves the state alone while the mode is relative. *)
Lemma scan_line_relative (s : Pass1.st) (line : string) :
  mode_after (Pass1.absolute s) line = false ->
  Pass1.scan_line math_pow cfg perlin s line
  = Ok {| Pass1.noises := Pass1.noises s; Pass1.formerZ := Pass1.formerZ s;
          Pass1.thisZ := Pass1.thisZ s; Pass1.absolute := false |}.
Proof.
  unfold Pass1.scan_line, mode_after. intro M. rewrite M. reflexivity.
Qed.

Lemma scan_lines_no_G90 (s : Pass1.st) (lines : list string) :
  Pass1.absolute s = false ->
  Forall (fun line => Str.contains "G90" line = false) lines ->
  Pass1.scan_lines math_pow cfg perlin s lines = Ok s.
Proof.
  intros A F. induction F as [|line lines C _ IH]; simpl; [reflexivity|].
  rewrite scan_line_relative.
  - simpl. destruct s as [n f t a]. simpl in *. subst a. exact IH.
  - unfold mode_after. rewrite C, A. destruct (Str.contains "G91" line);
      reflexivity.
Qed.

(** The first pass keeps the keys of the noise map distinct. *)
Lemma scan_line_wf (s s' : Pass1.st) (line : string) :
  Dict.wf (Pass1.noises s) ->
  Pass1.scan_line math_pow cfg perlin s line = Ok s' ->
  Dict.wf (Pass1.noises s').
Proof.
  intro W. unfold Pass1.scan_line.
  repeat match goal with
    | |- context [if ?c then _ else _] => destruct c
    | |- context [bind ?m _] => destruct m; simpl
    end;
    intro E; try discriminate; injection E as <-; simpl;
    auto using wf_set.
Qed.

Lemma scan_lines_wf (lines : list string) (s s' : Pass1.st) :
  Dict.wf (Pass1.noises s) ->
  Pass1.scan_lines math_pow cfg perlin s lines = Ok s' ->
  Dict.wf (Pass1.noises s').
Proof.
  revert s. induction lines as [|line lines IH]; simpl; intros s W E.
  - injection E as <-. exact W.
  - destruct (Pass1.scan_line math_pow cfg perlin s line) as [s1|] eqn:L;
      simpl in E; [|discriminate].
    exact (IH s1 (scan_line_wf _ _ _ W L) E).
Qed.

Lemma run_wf (data : list string) (s : Pass1.st) :
  Pass1.run math_pow cfg perlin data = Ok s -> Dict.wf (Pass1.noises s).
Proof.
  unfold Pass1.run, Pass1.init.
  destruct (Pass1.sample math_pow cfg perlin 0) as [n0|]; simpl;
    [|discriminate].
  set (s0 := {| Pass1.noises := _ |}).
  assert (W : Dict.wf (Pass1.noises s0)) by (simpl; auto).
  clearbody s0. revert s0 W.
  induction data as [|layer data IH]; simpl; intros s0 W E.
  - injection E as <-. exact W.
  - destruct (Pass1.scan_lines math_pow cfg perlin s0 (Str.split layer))
      as [s1|] eqn:L; simpl in E; [|discriminate].
    exact (IH s1 (scan_lines_wf _ _ _ W L) E).
Qed.

End FirstPass.

(** ** The noise returns *)

Section NoiseReturns.

Variable shuffled : list Z.
Hypothesis shuffled_ok : shuffle_ok shuffled.

Lemma getitem_perm (i : Z) :
  (0 <= i < 512)%Z ->
  exists v,
    getitem (Perlin.perm (Perlin.init 256 shuffled)) i = Ok v /\
    (0 <= v < 256)%Z.
Proof.
  destruct shuffled_ok as [L F]. intro H. unfold getitem. simpl Perlin.perm.
  rewrite length_app, L.
  destruct (i <? 0)%Z eqn:N; [apply Z.ltb_lt in N; lia|]. rewrite N.
  destruct (nth_error (shuffled ++ shuffled) (Z.to_nat i)) as [v|] eqn:E.
  - exists v. split; [reflexivity|].
    apply nth_error_In in E. apply in_app_or in E.
    rewrite Forall_forall in F. destruct E as [E|E]; exact (F _ E).
  - apply nth_error_None in E. rewrite length_app, L in E. lia.
Qed.

Lemma land_tile (a : Z) : (0 <= Z.land a (256 - 1) < 256)%Z.
Proof.
  change (256 - 1)%Z with (Z.ones 8). rewrite Z.land_ones by lia.
  apply Z.mod_pos_bound. reflexivity.
Qed.




End NoiseReturns.

(** C7.  Height-transition policy of the first pass, in the arithmetic of
    the script.  For a line scanned in absolute mode, with [z] the height
    read from it ([formerZ] when it holds none): if [z] exceeds
    [2 + formerZ], [formerZ] becomes [z] and the noise map is unchanged;
    otherwise, if [abs(z - formerZ)] exceeds [0.1], [formerZ] becomes [z]
    and [z] is mapped to [math.pow] of the fractional part of 3 times the
    2-octave fractal noise of persistence [0.7] at
    [(z + zOffset) / (grainSize * 2)], raised to [spikinessPower];
    otherwise nothing is recorded.  The sum, the difference and [0.1] are
    those of the doubles: in exact terms, two heights that differ by [1/10]
    at most record nothing, and two heights that differ by more than
    [1/10 + 2^-55] are beyond the threshold. *)
Theorem C7_height_transition_policy
    (math_pow : Q -> Q -> result Q) (cfg : Settings) (perlin : Perlin.t)
    (s : Pass1.st) (line : string) :
  mode_after (Pass1.absolute s) line = true ->
  let former := Pass1.formerZ s in
  let z := getZ F64.round line former in
  let step := Qabs (F64.sub z former) in
  (F64.add 2 former < z ->
   Pass1.scan_line math_pow cfg perlin s line
   = Ok {| Pass1.noises := Pass1.noises s; Pass1.formerZ := z;
           Pass1.thisZ := z; Pass1.absolute := true |}) /\
  (z <= F64.add 2 former -> Pass1.minimumChangeZ < step ->
   Pass1.scan_line math_pow cfg perlin s line
   = (at_ <- F64.div (F64.add z (zOffset cfg)) (F64.mul (grainSize cfg) 2) ;;
      f <- Perlin.fractal perlin 2 (F64.round (7 # 10)) 0 0 at_ 1 ;;
      v <- math_pow
             (F64.sub (F64.mul 3 f) (inject_Z (Qfloor (F64.mul 3 f))))
             (spikinessPower cfg) ;;
      Ok {| Pass1.noises := Dict.set z v (Pass1.noises s);
            Pass1.formerZ := z; Pass1.thisZ := z;
            Pass1.absolute := true |})) /\
  (z <= F64.add 2 former -> step <= Pass1.minimumChangeZ ->
   Pass1.scan_line math_pow cfg perlin s line
   = Ok {| Pass1.noises := Pass1.noises s; Pass1.formerZ := former;
           Pass1.thisZ := z; Pass1.absolute := true |}) /\
  (Qabs (z - former) <= 1 # 10 -> step <= Pass1.minimumChangeZ) /\
  ((1 # 10) + 2 ^ (-55) < Qabs (z - former) -> Pass1.minimumChangeZ < step).
Proof.
  intros M former z step. unfold Pass1.scan_line. unfold mode_after in M.
  rewrite M. fold former. fold z. fold step.
  split; [|split; [|split; [|split]]].
  - intro J. rewrite (proj2 (Qgtb_true _ _) J). reflexivity.
  - intros J D. rewrite (proj2 (Qgtb_false _ _) J).
    rewrite (proj2 (Qgtb_true _ _) D).
    unfold Pass1.sample, perlinToNormalizedWood.
    destruct (F64.div _ _) as [at_|]; [|reflexivity]. cbn [bind].
    destruct (Perlin.fractal _ _ _ _ _ _ _) as [f|]; reflexivity.
  - intros J D. rewrite (proj2 (Qgtb_false _ _) J).
    rewrite (proj2 (Qgtb_false _ _) D). reflexivity.
  - intro E. unfold step, F64.sub, Pass1.minimumChangeZ.
    rewrite Qabs_round. apply round_le. exact E.
  - intro E. unfold step, F64.sub. rewrite Qabs_round.
    apply Qlt_le_trans with (F64.round (Pass1.minimumChangeZ + 2 ^ (-56))).
    + vm_compute. reflexivity.
    + apply round_le. apply Qle_trans with ((1 # 10) + 2 ^ (-55)).
      * vm_compute. discriminate.
      * apply Qlt_le_weak. exact E.
Qed.

Lemma C7_height_transition_policy_witness :
  mode_after true "G1 Z0.4" = true /\
  (exists v,
     Pass1.scan_line pow_exponent_one cfg_default
       (Perlin.init 256 sample_shuffle)
       {| Pass1.noises := [(0, 1 # 2)]; Pass1.formerZ := F64.round (3 # 10);
          Pass1.thisZ := F64.round (3 # 10); Pass1.absolute := true |}
       "G1 Z0.4"
     = Ok {| Pass1.noises := [(0, 1 # 2); (F64.round (4 # 10), v)];
             Pass1.formerZ := F64.round (4 # 10);
             Pass1.thisZ := F64.round (4 # 10); Pass1.absolute := true |}) /\
  Pass1.scan_line pow_exponent_one cfg_default
    (Perlin.init 256 sample_shuffle)
    {| Pass1.noises := [(0, 1 # 2)]; Pass1.formerZ := F64.round (119 # 1000);
       Pass1.thisZ := F64.round (119 # 1000); Pass1.absolute := true |}
    "G1 Z2.119"
  = Ok {| Pass1.noises := [(0, 1 # 2)];
          Pass1.formerZ := getZ F64.round "G1 Z2.119" (F64.round (119 # 1000));
          Pass1.thisZ := getZ F64.round "G1 Z2.119" (F64.round (119 # 1000));
          Pass1.absolute := true |}.
Proof.
  split; [reflexivity|]. split.
  - pose proof (proj1 (proj2 (C7_height_transition_policy pow_exponent_one
              cfg_default (Perlin.init 256 sample_shuffle)
              {| Pass1.noises := [(0, 1 # 2)];
                 Pass1.formerZ := F64.round (3 # 10);
                 Pass1.thisZ := F64.round (3 # 10); Pass1.absolute := true |}
              "G1 Z0.4" eq_refl))) as H.
    cbv zeta in H. rewrite H.
    + eexists. vm_compute. reflexivity.
    + vm_compute. discriminate.
    + vm_compute. reflexivity.
  - refine (proj1 (C7_height_transition_policy pow_exponent_one
              cfg_default (Perlin.init 256 sample_shuffle)
              {| Pass1.noises := [(0, 1 # 2)];
                 Pass1.formerZ := F64.round (119 # 1000);
                 Pass1.thisZ := F64.round (119 # 1000);
                 Pass1.absolute := true |}
              "G1 Z2.119" eq_refl) _).
    vm_compute. reflexivity.
Defined.

(** C9, as amended.  The first pass starts in relative mode
    ([absolute] is false) with [formerZ = -1]: no height is extracted until
    a line carries the absolute-mode command [G90]. *)
Theorem C9_initial_positioning_mode
    (math_pow : Q -> Q -> result Q) (cfg : Settings) (perlin : Perlin.t)
    (s0 : Pass1.st) :
  Pass1.init math_pow cfg perlin = Ok s0 ->
  Pass1.absolute s0 = false /\
  Pass1.formerZ s0 = - (1) /\
  forall lines,
    Forall (fun line => Str.contains "G90" line = false) lines ->
    Pass1.scan_lines math_pow cfg perlin s0 lines = Ok s0.
Proof.
  unfold Pass1.init.
  destruct (Pass1.sample math_pow cfg perlin 0) as [n0|]; simpl;
    [|discriminate].
  intro E. injection E as <-. simpl. repeat split.
  intros lines F. apply scan_lines_no_G90; [reflexivity|exact F].
Qed.

Lemma C9_initial_positioning_mode_witness :
  exists s0,
    Pass1.init pow_exponent_one cfg_default (Perlin.init 256 sample_shuffle)
    = Ok s0 /\
    Pass1.scan_lines pow_exponent_one cfg_default (Perlin.init 256 sample_shuffle)
      s0 ["G1 Z0.3"; "G91"; "G1 Z0.6"] = Ok s0.
Proof.
  eexists.
  match goal with
  | |- ?i = Ok ?s0 /\ _ =>
      assert (I : i = Ok s0) by (vm_compute; reflexivity);
      destruct (C9_initial_positioning_mode pow_exponent_one cfg_default
                  (Perlin.init 256 sample_shuffle) s0 I) as (_ & _ & N)
  end.
  split; [exact I|]. apply N. repeat constructor.
Defined.

(** C9, as stated, fails: the flag starts false, and a stream whose Z moves
    are not preceded by [G90] yields no height beyond the hard-encoded 0. *)
Lemma C9_counterexample :
  exists s0 s,
    Pass1.init pow_exponent_one cfg_default (Perlin.init 256 sample_shuffle)
    = Ok s0 /\
    Pass1.absolute s0 = false /\
    Pass1.run pow_exponent_one cfg_default (Perlin.init 256 sample_shuffle)
      ["G1 Z0.3" ++ Str.eol ++ "G1 Z0.6" ++ Str.eol]
    = Ok s /\
    Dict.keys (Pass1.noises s) = [0].
Proof.
  do 2 eexists. split; [vm_compute; reflexivity|].
  split; [reflexivity|]. split; [vm_compute; reflexivity|reflexivity].
Qed.

(** ** The second pass and the positioning mode *)

Section ModeBlind.

Variable cfg : Settings.
Variable noises : Dict.t.
Variable lastPatchZ : Q.

(** A line that is just a mode command resets [thisZ] to [formerZ] and does
    nothing else. *)
Lemma rewrite_line_mode_command (s : Pass2.st) (mode : string) :
  mode = "G90" \/ mode = "G91" ->
  (Pass2.skiplines s <= 0)%Z ->
  ~ Pass2.thisZ s == lastPatchZ ->
  Pass2.rewrite_line cfg noises lastPatchZ s mode
  = Ok (Pass2.set_thisZ s (Pass2.formerZ s)).
Proof.
  intros M K T. unfold Pass2.rewrite_line.
  assert (G : getZ F64.round mode (Pass2.formerZ s) = Pass2.formerZ s)
    by (destruct M as [-> | ->]; reflexivity).
  assert (C : Str.contains "; set extruder " (Str.lower mode) = false
              /\ Str.contains ";woodified" (Str.lower mode) = false
              /\ Str.contains ";woodgraph" (Str.lower mode) = false
              /\ Str.contains "m104" (Str.lower mode) = false)
    by (destruct M as [-> | ->]; repeat split; reflexivity).
  destruct C as (-> & -> & -> & ->). rewrite G.
  rewrite Z.gtb_ltb, (proj2 (Z.ltb_ge 0 (Pass2.skiplines s)) K).
  rewrite (proj2 (Qeq_bool_false _ _) T).
  rewrite (proj2 (Qeq_bool_iff _ _) (Qeq_refl _)). reflexivity.
Qed.

(** A line that reaches the height test and carries a new height of the
    map gets its temperature command, whatever came before. *)
Lemma rewrite_line_injects (s : Pass2.st) (line : string) (z : Q) :
  (Pass2.skiplines s <= 0)%Z ->
  ~ Pass2.thisZ s == lastPatchZ ->
  Str.contains "; set extruder " (Str.lower line) = false ->
  Str.contains ";woodified" (Str.lower line) = false ->
  Str.contains ";woodgraph" (Str.lower line) = false ->
  Str.contains "m104" (Str.lower line) = false ->
  getZ F64.round line (Pass2.formerZ s) = z ->
  ~ z == Pass2.formerZ s ->
  Dict.mem z noises = true ->
  Pass2.keeps_first cfg z = false ->
  ~ maxTemp cfg == minTemp cfg ->
  exists temp s',
    Pass2.rewrite_line cfg noises lastPatchZ s line = Ok s' /\
    Pass2.layer s'
    = Str.replace (Pass2.layer s) line (line ++ Str.eol ++ Pass2.m104 temp) /\
    Pass2.thisZ s' = z /\
    Pass2.formerZ s' = z.
Proof.
  intros K T C1 C2 C3 C4 G N M F R.
  unfold Pass2.rewrite_line. rewrite C1, C2, C3, C4, G.
  rewrite Z.gtb_ltb, (proj2 (Z.ltb_ge 0 (Pass2.skiplines s)) K).
  rewrite (proj2 (Qeq_bool_false _ _) T).
  rewrite (proj2 (Qeq_bool_false _ _) N), M. simpl negb. simpl andb.
  unfold Pass2.transition. simpl Pass2.thisZ. rewrite F.
  unfold Dict.mem in M. unfold Dict.item.
  destruct (Dict.get z noises) as [n|]; [|discriminate]. simpl bind.
  destruct (Pass2.schedule cfg n _ _) as [[temp delta] last]. simpl bind.
  unfold py_div.
  assert (D : ~ maxTemp cfg - minTemp cfg == 0) by lra.
  rewrite (proj2 (Qeq_bool_false _ _) D). simpl bind.
  exists temp. eexists. split; [reflexivity|]. simpl. auto.
Qed.

End ModeBlind.

(** C10.  The second pass does not track the positioning mode.  A [G90] or
    a [G91] line only resets [thisZ]; the Z move on the next line is read
    as an absolute height and, when that height is a new one of the noise
    map, gets its temperature command, with the same resulting state after
    [G91] as after [G90]. *)
Theorem C10_second_pass_ignores_mode
    (cfg : Settings) (noises : Dict.t) (lastPatchZ : Q)
    (s0 : Pass2.st) (line : string) (z : Q) :
  (Pass2.skiplines s0 <= 0)%Z ->
  ~ Pass2.thisZ s0 == lastPatchZ ->
  ~ Pass2.formerZ s0 == lastPatchZ ->
  Str.contains "; set extruder " (Str.lower line) = false ->
  Str.contains ";woodified" (Str.lower line) = false ->
  Str.contains ";woodgraph" (Str.lower line) = false ->
  Str.contains "m104" (Str.lower line) = false ->
  getZ F64.round line (Pass2.formerZ s0) = z ->
  ~ z == Pass2.formerZ s0 ->
  Dict.mem z noises = true ->
  Pass2.keeps_first cfg z = false ->
  ~ maxTemp cfg == minTemp cfg ->
  exists temp s2,
    Pass2.layer s2
    = Str.replace (Pass2.layer s0) line
        (line ++ Str.eol ++ Pass2.m104 temp) /\
    Pass2.thisZ s2 = z /\
    Pass2.formerZ s2 = z /\
    forall mode, mode = "G90" \/ mode = "G91" ->
      exists s1,
        Pass2.rewrite_line cfg noises lastPatchZ s0 mode = Ok s1 /\
        Pass2.rewrite_line cfg noises lastPatchZ s1 line = Ok s2.
Proof.
  intros K T T' C1 C2 C3 C4 G N M F R.
  destruct (rewrite_line_injects cfg noises lastPatchZ
              (Pass2.set_thisZ s0 (Pass2.formerZ s0)) line z
              K T' C1 C2 C3 C4 G N M F R) as (temp & s2 & E & L & A & B).
  exists temp, s2. repeat split; try assumption.
  intros mode Hm. exists (Pass2.set_thisZ s0 (Pass2.formerZ s0)).
  split; [|exact E].
  apply rewrite_line_mode_command; assumption.
Qed.

Lemma C10_second_pass_ignores_mode_witness :
  exists s1 s2,
    Pass2.rewrite_line cfg_default noises_three height_09
      state_relative_layer "G91" = Ok s1 /\
    Pass2.rewrite_line cfg_default noises_three height_09 s1 "G1 Z0.6"
    = Ok s2 /\
    Pass2.layer s2
    = "G91" ++ Str.eol ++ "G1 Z0.6" ++ Str.eol
      ++ "M104 S188 ; Wood Grain" ++ Str.eol ++ Str.eol.
Proof.
  assert (K : (Pass2.skiplines state_relative_layer <= 0)%Z)
    by (vm_compute; discriminate).
  assert (T : ~ Pass2.thisZ state_relative_layer == height_09)
    by (vm_compute; discriminate).
  assert (T' : ~ Pass2.formerZ state_relative_layer == height_09)
    by (vm_compute; discriminate).
  assert (N : ~ height_06 == Pass2.formerZ state_relative_layer)
    by (vm_compute; discriminate).
  assert (R : ~ maxTemp cfg_default == minTemp cfg_default)
    by (vm_compute; discriminate).
  destruct (C10_second_pass_ignores_mode cfg_default noises_three height_09
              state_relative_layer "G1 Z0.6" height_06
              K T T' eq_refl eq_refl eq_refl eq_refl eq_refl N eq_refl
              eq_refl R)
    as (temp & s2 & L & _ & _ & H).
  destruct (H "G91" (or_intror eq_refl)) as (s1 & E1 & E2).
  exists s1, s2. split; [exact E1|]. split; [exact E2|].
  assert (E1' : Pass2.rewrite_line cfg_default noises_three height_09
                  state_relative_layer "G91"
                = Ok (Pass2.set_thisZ state_relative_layer height_03))
    by (vm_compute; reflexivity).
  rewrite E1' in E1. injection E1 as <-.
  vm_compute in E2. injection E2 as <-. reflexivity.
Defined.

(** ** Strings *)

Section StrFacts.

Lemma append_assoc (a b c : string) : (a ++ b) ++ c = a ++ (b ++ c).
Proof. induction a as [|x a IH]; simpl; [reflexivity|]. rewrite IH. reflexivity. Qed.

Lemma startswith_has_char (c : ascii) (p s : string) :
  Str.startswith (String c p) s = true -> has_char c s = true.
Proof.
  destruct s as [|a s]; simpl; [discriminate|].
  intro H. apply andb_true_iff in H. destruct H as [E _].
  apply Ascii.eqb_eq in E. subst a. rewrite Ascii.eqb_refl. reflexivity.
Qed.

Lemma contains_has_char (c : ascii) (p s : string) :
  Str.contains (String c p) s = true -> has_char c s = true.
Proof.
  induction s as [|a s IH].
  - simpl. discriminate.
  - intro H. change (Str.startswith (String c p) (String a s)
                     || Str.contains (String c p) s = true) in H.
    apply orb_true_iff in H. destruct H as [H|H].
    + exact (startswith_has_char _ _ _ H).
    + simpl. rewrite (IH H). apply orb_true_r.
Qed.

Lemma lower_char_semicolon (c : ascii) :
  Str.lower_char c = ";"%char -> c = ";"%char.
Proof.
  destruct c as [[] [] [] [] [] [] [] []]; vm_compute; intro H;
    first [reflexivity | discriminate H].
Qed.

Lemma has_semicolon_lower (s : string) :
  has_char ";" (Str.lower s) = true -> has_char ";" s = true.
Proof.
  induction s as [|a s IH]; simpl; [discriminate|].
  intro H. apply orb_true_iff in H. destruct H as [H|H].
  - apply Ascii.eqb_eq, lower_char_semicolon in H. subst a. reflexivity.
  - rewrite (IH H). apply orb_true_r.
Qed.

(** The lines of a layer hold no newline. *)
Lemma split_no_nl (s : string) :
  Forall (fun line => has_char Str.nl line = false) (Str.split s).
Proof.
  induction s as [|a s IH]; simpl.
  - repeat constructor.
  - destruct (Ascii.eqb a Str.nl) eqn:E.
    + constructor; [reflexivity|exact IH].
    + destruct (Str.split s) as [|l ls].
      * repeat constructor. simpl. rewrite E. reflexivity.
      * inversion IH as [|? ? Hl Hls]; subst. constructor; [|exact Hls].
        simpl. rewrite E, Hl. reflexivity.
Qed.

(** A pattern without newline that holds a character foreign to [p]
    matches nowhere inside a block [p] of whole lines. *)
Lemma startswith_block (c : ascii) (pat p rest : string) :
  has_char Str.nl pat = false ->
  has_char c pat = true ->
  has_char c p = false ->
  ends_lines p = true ->
  p <> EmptyString ->
  Str.startswith pat (p ++ rest) = false.
Proof.
  intros Hnl. revert p. induction pat as [|a pat IH]; intros p Hc Hp He Hn.
  - discriminate.
  - destruct p as [|b p]; [contradiction|]. simpl.
    destruct (Ascii.eqb a b) eqn:E; [|reflexivity]. simpl.
    apply Ascii.eqb_eq in E. subst b.
    simpl in Hnl, Hc, Hp. apply orb_false_iff in Hnl, Hp.
    destruct Hnl as [Hnl1 Hnl2], Hp as [Hp1 Hp2].
    rewrite Hp1 in Hc. simpl in Hc.
    destruct p as [|b p].
    + simpl in He. congruence.
    + apply IH; try assumption; discriminate.
Qed.

Lemma ends_lines_tail (a b : ascii) (p : string) :
  ends_lines (String a (String b p)) = ends_lines (String b p).
Proof. reflexivity. Qed.

(** Replacing such a pattern leaves the block in front untouched. *)
Lemma replace_from_block (c : ascii) (pat rep p rest : string) :
  has_char Str.nl pat = false ->
  has_char c pat = true ->
  has_char c p = false ->
  ends_lines p = true ->
  Str.replace_from pat rep 0 (p ++ rest)
  = p ++ Str.replace_from pat rep 0 rest.
Proof.
  intros Hnl Hc. induction p as [|a p IH]; intros Hp He; [reflexivity|].
  change (String a p ++ rest) with (String a (p ++ rest)).
  cbn [Str.replace_from].
  change (String a (p ++ rest)) with (String a p ++ rest).
  rewrite (startswith_block c pat (String a p) rest Hnl Hc Hp He)
    by discriminate.
  simpl. f_equal. simpl in Hp. apply orb_false_iff in Hp.
  destruct Hp as [_ Hp]. destruct p as [|b p]; [reflexivity|].
  apply IH; [exact Hp|]. rewrite <- He. symmetry. apply ends_lines_tail.
Qed.

Lemma replace_block (c : ascii) (pat rep p rest : string) :
  has_char Str.nl pat = false ->
  has_char c pat = true ->
  has_char c p = false ->
  ends_lines p = true ->
  Str.replace (p ++ rest) pat rep = p ++ Str.replace rest pat rep.
Proof.
  intros Hnl Hc Hp He. unfold Str.replace.
  destruct pat as [|a pat]; [discriminate|].
  exact (replace_from_block c _ rep p rest Hnl Hc Hp He).
Qed.

End StrFacts.

(** ** Numbers *)

Section NumFacts.

(** [int] does not depend on the representation of the fraction. *)
Lemma int_compat (x y : Q) : x == y -> Num.int x = Num.int y.
Proof.
  unfold Qeq, Num.int. destruct x as [a b], y as [c d]. simpl. intro E.
  rewrite <- (Z.quot_mul_cancel_r a (Zpos b) (Zpos d)) by discriminate.
  rewrite <- (Z.quot_mul_cancel_r c (Zpos d) (Zpos b)) by discriminate.
  rewrite E. f_equal. apply Z.mul_comm.
Qed.

Lemma all_chars_app (f : ascii -> bool) (a b : string) :
  all_chars f (a ++ b) = all_chars f a && all_chars f b.
Proof.
  induction a as [|x a IH]; simpl; [reflexivity|].
  rewrite IH. apply andb_assoc.
Qed.

Lemma ends_lines_app (a : string) (x : ascii) (b : string) :
  ends_lines (a ++ String x b) = ends_lines (String x b).
Proof.
  induction a as [|y a IH]; [reflexivity|].
  change (String y a ++ String x b) with (String y (a ++ String x b)).
  destruct a as [|z a]; [reflexivity|].
  rewrite <- IH. reflexivity.
Qed.

Lemma plain_no_char (c : ascii) (s : string) :
  plain_char c = false -> all_chars plain_char s = true ->
  has_char c s = false.
Proof.
  intros Hc. induction s as [|a s IH]; simpl; [reflexivity|].
  intro H. apply andb_true_iff in H. destruct H as [Ha Hs].
  rewrite (IH Hs), orb_false_r.
  destruct (Ascii.eqb a c) eqn:E; [|reflexivity].
  apply Ascii.eqb_eq in E. congruence.
Qed.

Lemma plain_digit_char (d : Z) :
  (0 <= d < 10)%Z -> plain_char (Num.digit_char d) = true.
Proof.
  intro H.
  assert (C : (d = 0 \/ d = 1 \/ d = 2 \/ d = 3 \/ d = 4 \/ d = 5 \/ d = 6
               \/ d = 7 \/ d = 8 \/ d = 9)%Z) by lia.
  repeat (destruct C as [-> | C]; [reflexivity|]). subst d. reflexivity.
Qed.

Lemma plain_digits_fuel (fuel : nat) (n : Z) (acc : string) :
  all_chars plain_char acc = true ->
  all_chars plain_char (Num.digits_fuel fuel n acc) = true.
Proof.
  revert n acc. induction fuel as [|fuel IH]; intros n acc H; simpl;
    [exact H|].
  assert (A : all_chars plain_char (String (Num.digit_char (n mod 10)) acc)
              = true).
  { simpl. rewrite H, plain_digit_char; [reflexivity|].
    apply Z.mod_pos_bound. lia. }
  destruct (n <? 10)%Z; [exact A|]. apply IH. exact A.
Qed.

Lemma plain_fmt_i (x : Q) : all_chars plain_char (Num.fmt_i x) = true.
Proof.
  unfold Num.fmt_i, Num.fmt_int, Num.digits.
  destruct (Num.int x <? 0)%Z; cbn [all_chars];
    try (change (plain_char "-") with true; cbn [andb]);
    apply plain_digits_fuel; reflexivity.
Qed.

(** The header block the script builds is the startup block. *)
Lemma warming_startup (cfg : Settings) :
  Pass2.warming cfg = startup_block cfg.
Proof.
  unfold Pass2.warming, startup_block.
  destruct (Qeq_bool (firstTemp cfg) 0); rewrite !append_assoc;
    [|reflexivity].
  unfold Num.fmt_i.
  rewrite (int_compat (noiseToTemp 0 (maxTemp cfg) (minTemp cfg))
             (minTemp cfg)) by (unfold noiseToTemp; ring).
  reflexivity.
Qed.

Lemma startup_block_plain (cfg : Settings) :
  all_chars plain_char (startup_block cfg) = true.
Proof.
  unfold startup_block.
  repeat (rewrite all_chars_app; apply andb_true_iff; split);
    first [reflexivity | apply plain_fmt_i].
Qed.

Lemma startup_block_ends_lines (cfg : Settings) :
  ends_lines (startup_block cfg) = true.
Proof.
  unfold startup_block, Str.eol.
  rewrite <- !append_assoc.
  rewrite ends_lines_app. reflexivity.
Qed.

End NumFacts.

(** ** The startup block through the second pass *)

Section StartupBlock.

Variable cfg : Settings.
Variable noises : Dict.t.
Variable lastPatchZ : Q.

Lemma getValue_found (num : Q -> option Q) (line key : string) (v : Q) :
  getValue num line key None = Some v -> Str.contains key line = true.
Proof.
  unfold getValue. destruct (Str.contains key line); [reflexivity|].
  simpl. discriminate.
Qed.

(** A line that changes the height holds a [G]. *)
Lemma getZ_changed_has_G (line : string) (f : Q) :
  ~ getZ F64.round line f == f -> has_char "G" line = true.
Proof.
  unfold getZ. intro N.
  destruct (getValue float line "G" None) as [v|] eqn:E.
  - apply getValue_found in E. exact (contains_has_char _ _ _ E).
  - simpl in N. exfalso. apply N. reflexivity.
Qed.

(** The block [p] in front of the layer survives every line. *)
Lemma rewrite_line_block (p : string) (s s' : Pass2.st) (line r : string) :
  all_chars plain_char p = true ->
  ends_lines p = true ->
  has_char Str.nl line = false ->
  Pass2.layer s = p ++ r ->
  Pass2.rewrite_line cfg noises lastPatchZ s line = Ok s' ->
  exists r', Pass2.layer s' = p ++ r'.
Proof.
  intros Hp He Hnl L. unfold Pass2.rewrite_line.
  destruct (Str.contains "; set extruder " (Str.lower line)) eqn:C1.
  { intro E. injection E as <-. simpl. rewrite L.
    apply contains_has_char, has_semicolon_lower in C1.
    rewrite (replace_block ";" line _ p r Hnl C1); [eexists; reflexivity| |exact He].
    apply plain_no_char; [reflexivity|exact Hp]. }
  destruct (Pass2.skiplines s >? 0)%Z.
  { intro E. injection E as <-. exists r. exact L. }
  destruct (Str.contains ";woodified" (Str.lower line)).
  { intro E. injection E as <-. exists r. exact L. }
  destruct (negb (Str.contains ";woodgraph" (Str.lower line)));
    [|intro E; injection E as <-; exists r; exact L].
  destruct (Qeq_bool (Pass2.thisZ s) lastPatchZ);
    [intro E; injection E as <-; exists r; exact L|].
  destruct (negb (Str.contains "m104" (Str.lower line)));
    [|intro E; injection E as <-; exists r; exact L].
  set (z := getZ F64.round line (Pass2.formerZ s)).
  destruct (negb (Qeq_bool z (Pass2.formerZ s)) && Dict.mem z noises) eqn:C;
    [|intro E; injection E as <-; exists r; exact L].
  reflect_tests. intro T.
  destruct (Pass2.keeps_first cfg z) eqn:K.
  - destruct (transition_keeps_first cfg noises (Pass2.set_thisZ s z) line s'
                K T) as [t ->]. exists r. exact L.
  - destruct (transition_scheduled cfg noises (Pass2.set_thisZ s z) line s'
                K T) as (n & temp & t & _ & _ & ->).
    simpl. rewrite L.
    pose proof (getZ_changed_has_G line (Pass2.formerZ s) H) as G.
    rewrite (replace_block "G" line _ p r Hnl G); [eexists; reflexivity| |exact He].
    apply plain_no_char; [reflexivity|exact Hp].
Qed.

Lemma rewrite_lines_block (p : string) (lines : list string)
    (s s' : Pass2.st) (r : string) :
  all_chars plain_char p = true ->
  ends_lines p = true ->
  Forall (fun line => has_char Str.nl line = false) lines ->
  Pass2.layer s = p ++ r ->
  Pass2.rewrite_lines cfg noises lastPatchZ s lines = Ok s' ->
  exists r', Pass2.layer s' = p ++ r'.
Proof.
  intros Hp He F. revert s r.
  induction F as [|line lines Hl _ IH]; intros s r L; simpl.
  - intro E. injection E as <-. exists r. exact L.
  - destruct (Pass2.rewrite_line cfg noises lastPatchZ s line) as [s1|] eqn:R;
      simpl; [|discriminate].
    destruct (rewrite_line_block p s s1 line r Hp He Hl L R) as [r1 L1].
    exact (IH s1 r1 L1).
Qed.

End StartupBlock.

(** ** The loop over the layers *)

Section Layers.

Variable math_pow : Q -> Q -> result Q.
Variable cfg : Settings.

(** From the second layer on, the loop leaves the first layer of the store
    alone; its last index is 0 only when no layer is left to visit. *)
Lemma rewrite_layers_rest (noises : Dict.t) (lastPatchZ : Q)
    (todo : list string) (i : nat) (x : string) (xs : list string) (s : Pass2.st)
    (data' : list string) (s' : Pass2.st) (idx : nat) :
  Exec.rewrite_layers cfg noises lastPatchZ todo (S i) false (x :: xs) s
  = inr (data', s', idx) ->
  exists xs',
    data' = x :: xs' /\
    ((todo = [] /\ s' = s /\ idx = i /\ xs' = xs) \/ (1 <= idx)%nat).
Proof.
  revert i xs s. induction todo as [|l todo IH]; intros i xs s; simpl.
  - intro E. injection E as <- <- <-. exists xs. split; [reflexivity|].
    left. repeat split. lia.
  - destruct (Pass2.rewrite_lines cfg noises lastPatchZ _ (Str.split l))
      as [s1|]; [|discriminate].
    set (xs1 := if Pass2.savelayer s1 then setitem xs i (Pass2.layer s1)
                else xs).
    assert (D : (if Pass2.savelayer s1
                 then x :: setitem xs i (Pass2.layer s1) else x :: xs)
                = x :: xs1)
      by (unfold xs1; destruct (Pass2.savelayer s1); reflexivity).
    rewrite D. intro E.
    destruct (IH (S i) xs1 _ E) as (xs' & -> & [(_ & _ & -> & _)|G]);
      exists xs'; (split; [reflexivity|right; lia]).
Qed.

(** After a run that returns, the first layer starts with the header
    block. *)
Lemma execute_first_layer (shuffled : list Z) (layer0 : string)
    (rest data' : list string) :
  Exec.execute math_pow cfg shuffled (layer0 :: rest) = Returned data' ->
  exists r more, data' = (Pass2.warming cfg ++ r) :: more.
Proof.
  unfold Exec.execute.
  destruct (Pass1.run _ _ _ _) as [s1|]; [|discriminate].
  destruct (Normalize.run _) as [nz|]; [|discriminate].
  cbn [Exec.rewrite_layers setitem Pass2.init Pass2.warmingTempCommands].
  set (p := Pass2.warming cfg).
  set (s0 := {| Pass2.layer := p ++ layer0 |}).
  destruct (Pass2.rewrite_lines cfg nz (Pass1.thisZ s1) s0
              (Str.split (p ++ layer0))) as [s2|] eqn:R; [|discriminate].
  assert (B : exists r, Pass2.layer s2 = p ++ r).
  { apply (rewrite_lines_block cfg nz (Pass1.thisZ s1) p
             (Str.split (p ++ layer0)) s0 s2 layer0).
    - unfold p. rewrite warming_startup. apply startup_block_plain.
    - unfold p. rewrite warming_startup. apply startup_block_ends_lines.
    - apply split_no_nl.
    - reflexivity.
    - exact R. }
  destruct B as [r B].
  set (x := if Pass2.savelayer s2 then Pass2.layer s2 else p ++ layer0).
  assert (X : exists rx, x = p ++ rx).
  { unfold x. destruct (Pass2.savelayer s2); [exists r; exact B|].
    exists layer0. reflexivity. }
  assert (D : (if Pass2.savelayer s2
               then Pass2.layer s2 :: rest else (p ++ layer0) :: rest)
              = x :: rest)
    by (unfold x; destruct (Pass2.savelayer s2); reflexivity).
  rewrite D.
  destruct (Exec.rewrite_layers cfg nz (Pass1.thisZ s1) rest 1 false
              (x :: rest) _) as [[e d]|[[d s3] idx]] eqn:E; [discriminate|].
  destruct (rewrite_layers_rest _ _ _ _ _ _ _ _ _ _ E)
    as (xs' & -> & [(_ & -> & -> & _)|G]).
  - intro H. injection H as <-. simpl. rewrite B.
    exists (r ++ Pass2.graphStr s2 ++ Str.eol), xs'.
    rewrite append_assoc. reflexivity.
  - intro H. injection H as <-. destruct X as [rx ->].
    destruct idx as [|k]; [lia|]. simpl. eexists. eexists. reflexivity.
Qed.

End Layers.

(** C5, as amended.  The first layer of the result starts with the startup
    block: wait-for-temperature enabled ([M230 S0]), a temperature command
    ([M104]) whose value is the start temperature when that is non-zero and
    [minTemp] (the temperature of noise value 0) otherwise,
    wait-for-temperature disabled ([M230 S1]) and the blocking wait
    ([M116]). *)
Theorem C5_startup_block_content
    (math_pow : Q -> Q -> result Q) (cfg : Settings) (shuffled : list Z)
    (layer0 : string) (rest data' : list string) :
  Exec.execute math_pow cfg shuffled (layer0 :: rest) = Returned data' ->
  exists r more,
    data'
    = ("M230 S0" ++ Str.eol
       ++ "M104 S"
       ++ Num.fmt_i (if Qeq_bool (firstTemp cfg) 0 then minTemp cfg
                     else firstTemp cfg)
       ++ Str.eol
       ++ "M230 S1" ++ Str.eol
       ++ "M116" ++ Str.eol
       ++ r) :: more.
Proof.
  intro E.
  destruct (execute_first_layer math_pow cfg shuffled layer0 rest data' E)
    as (r & more & ->).
  exists r, more. rewrite warming_startup. unfold startup_block.
  rewrite !append_assoc. reflexivity.
Qed.

Lemma C5_startup_block_content_witness :
  exists r more,
    Exec.execute pow_exponent_one cfg_first sample_shuffle data_three
    = Returned
        (("M230 S0" ++ Str.eol ++ "M104 S200" ++ Str.eol
          ++ "M230 S1" ++ Str.eol ++ "M116" ++ Str.eol ++ r) :: more).
Proof.
  destruct (Exec.execute pow_exponent_one cfg_first sample_shuffle data_three)
    as [data'|e data'] eqn:E; [|vm_compute in E; discriminate E].
  destruct (C5_startup_block_content pow_exponent_one cfg_first sample_shuffle
              _ _ data' E) as (r & more & ->).
  exists r, more. reflexivity.
Defined.

(** C5, as stated, fails: with no start temperature the block sets
    [minTemp] (180) although the normalised noise of height 0 is 1, whose
    temperature is 230. *)
Lemma C5_counterexample :
  firstTemp cfg_default == 0 /\
  (exists s1,
     Pass1.run pow_exponent_one cfg_default (Perlin.init 256 sample_shuffle)
       data_three = Ok s1 /\
     Normalize.run (Pass1.noises s1) = Ok noises_three) /\
  (exists n0,
     Dict.get 0 noises_three = Some n0 /\
     Num.fmt_i (noiseToTemp n0 (maxTemp cfg_default) (minTemp cfg_default))
     = "230") /\
  exists r,
    Exec.execute pow_exponent_one cfg_default sample_shuffle data_three
    = Returned
        [text ["M230 S0"; "M104 S180"; "M230 S1"; "M116"] ++ r].
Proof.
  split; [reflexivity|]. split; [|split].
  - eexists. split; vm_compute; reflexivity.
  - eexists. split; vm_compute; reflexivity.
  - eexists. vm_compute. reflexivity.
Qed.

(** ** Aborts *)

(** C4, as amended.  A zero [grainSize] makes the transform abort with a
    division by zero before any layer is touched; and whenever the first
    pass or the normalisation aborts, the layers are as they were
    received. *)
Theorem C4_abort_before_rewrite
    (math_pow : Q -> Q -> result Q) (cfg : Settings) (shuffled : list Z)
    (data : list string) :
  (grainSize cfg == 0 ->
   Exec.execute math_pow cfg shuffled data = Raised ZeroDivisionError data) /\
  (forall e,
     Pass1.run math_pow cfg (Perlin.init 256 shuffled) data = Raise e ->
     Exec.execute math_pow cfg shuffled data = Raised e data) /\
  (forall s1 e,
     Pass1.run math_pow cfg (Perlin.init 256 shuffled) data = Ok s1 ->
     Normalize.run (Pass1.noises s1) = Raise e ->
     Exec.execute math_pow cfg shuffled data = Raised e data).
Proof.
  assert (A : forall e,
             Pass1.run math_pow cfg (Perlin.init 256 shuffled) data = Raise e ->
             Exec.execute math_pow cfg shuffled data = Raised e data).
  { intros e E. unfold Exec.execute. rewrite E. reflexivity. }
  split; [|split].
  - intro G. apply A. unfold Pass1.run, Pass1.init, Pass1.sample,
      perlinToNormalizedWood, F64.div, F64.mul.
    assert (Z : grainSize cfg * 2 == 0) by (rewrite G; ring).
    rewrite (round_compat _ _ Z). reflexivity.
  - exact A.
  - intros s1 e E N. unfold Exec.execute. rewrite E, N. reflexivity.
Qed.

Lemma C4_abort_before_rewrite_witness :
  grainSize cfg_zero_grain == 0 /\
  Exec.execute pow_exponent_one cfg_zero_grain sample_shuffle data_three
  = Raised ZeroDivisionError data_three.
Proof.
  assert (G : grainSize cfg_zero_grain == 0) by reflexivity.
  split; [exact G|].
  exact (proj1 (C4_abort_before_rewrite pow_exponent_one cfg_zero_grain
                  sample_shuffle data_three) G).
Defined.

(** C4, as stated, fails: with [maxTemp = minTemp] the division by zero
    comes in the second pass, once the first layer has been overwritten
    with the header block in front; and a negative [grainSize] does not
    abort at all. *)
Lemma C4_counterexample :
  maxTemp cfg_flat == minTemp cfg_flat /\
  Exec.execute pow_exponent_one cfg_flat sample_shuffle data_three
  = Raised ZeroDivisionError
      [text ["M230 S0"; "M104 S200"; "M230 S1"; "M116";
             "G90"; "G1 Z0.3"; "G1 X1 Y1"; "G1 Z0.6"; "G1 Z0.9"]] /\
  [text ["M230 S0"; "M104 S200"; "M230 S1"; "M116";
         "G90"; "G1 Z0.3"; "G1 X1 Y1"; "G1 Z0.6"; "G1 Z0.9"]]
  <> data_three /\
  grainSize cfg_negative_grain < 0 /\
  exists data',
    Exec.execute pow_exponent_one cfg_negative_grain sample_shuffle data_three
    = Returned data'.
Proof.
  split; [reflexivity|]. split; [vm_compute; reflexivity|].
  split; [vm_compute; discriminate|]. split; [reflexivity|].
  eexists. vm_compute. reflexivity.
Qed.

(** ** Running twice *)

(** C1: the code at the failing input.  A second run on the output of a
    first one prepends the startup block again, injects every temperature
    command again next to the one already there, and appends the graph
    again: the injected commands and the graph rows are doubled. *)
Theorem C1_rerun_doubles_injections :
  Exec.execute pow_exponent_one cfg_default sample_shuffle data_three
  = Returned [once_three] /\
  Exec.execute pow_exponent_one cfg_default sample_shuffle [once_three]
  = Returned [twice_three] /\
  count_line "M104 S188 ; Wood Grain" once_three = 1%nat /\
  count_line "M104 S188 ; Wood Grain" twice_three = 2%nat /\
  count_line ";WoodGraph: Z 0.600000 @188C | ###................" once_three
  = 1%nat /\
  count_line ";WoodGraph: Z 0.600000 @188C | ###................" twice_three
  = 2%nat /\
  count_line "M104 S180" once_three = 1%nat /\
  count_line "M104 S180" twice_three = 2%nat.
Proof.
  repeat split; vm_compute; reflexivity.
Qed.

(** * Further properties of the script *)

(** ** The scheduler, step by step *)





(** X3.  Without a cap ([maxUpward <= 0], the default) the scheduler keeps
    no debt: the postponed delta is 0 in every state of the second pass,
    and a scheduled temperature is the mapped one, or [maxTemp] when that
    is lower. *)
Theorem X3_no_cap_no_debt
    (cfg : Settings) (noises : Dict.t) (lastPatchZ : Q)
    (s : Pass2.st) (z : Q) (line : string) (s' : Pass2.st) :
  maxUpward cfg <= 0 ->
  reachable cfg noises lastPatchZ s ->
  Pass2.keeps_first cfg z = false ->
  Pass2.transition cfg noises (Pass2.set_thisZ s z) line = Ok s' ->
  Pass2.postponedTempDelta s == 0 /\
  Pass2.postponedTempDelta s' == 0 /\
  exists n temp,
    Dict.get z noises = Some n /\
    Pass2.postponedTempLast s' = Some temp /\
    (noiseToTemp n (maxTemp cfg) (minTemp cfg) <= maxTemp cfg ->
     temp == noiseToTemp n (maxTemp cfg) (minTemp cfg)) /\
    (maxTemp cfg < noiseToTemp n (maxTemp cfg) (minTemp cfg) ->
     temp == maxTemp cfg).
Proof.
  intros U Hs K T.
  assert (D : forall s0, reachable cfg noises lastPatchZ s0 ->
                         Pass2.postponedTempDelta s0 == 0).
  { induction 1 as [|s0 l0 s1 _ IH R|s0 l0 b _ IH]; simpl;
      [reflexivity| |exact IH].
    destruct (rewrite_line_scheduler _ _ _ _ _ _ R)
      as [[-> _]|(z0 & n0 & t0 & _ & S)]; [exact IH|].
    assert (C : Qgtb (maxUpward cfg) 0 = false)
      by (apply Qgtb_false; exact U).
    revert S. unfold Pass2.schedule. rewrite C.
    set (base := noiseToTemp n0 (maxTemp cfg) (minTemp cfg)
                 + Pass2.postponedTempDelta s0).
    destruct (Pass2.postponedTempLast s0) as [l|]; cbv beta iota zeta;
      simpl andb; cbv beta iota zeta;
      destruct (Qgtb base (maxTemp cfg)); intro S; injection S as _ <- _;
      reflexivity. }
  pose proof (D s Hs) as D0.
  destruct (transition_scheduled cfg noises (Pass2.set_thisZ s z) line s' K T)
    as (n & temp & t & G & S & E).
  simpl in G, S.
  assert (C : Qgtb (maxUpward cfg) 0 = false) by (apply Qgtb_false; exact U).
  revert S. unfold Pass2.schedule. rewrite C.
  set (base := noiseToTemp n (maxTemp cfg) (minTemp cfg)
               + Pass2.postponedTempDelta s).
  assert (B : base == noiseToTemp n (maxTemp cfg) (minTemp cfg))
    by (unfold base; rewrite D0; ring).
  destruct (Pass2.postponedTempLast s) as [l|]; cbv beta iota zeta;
    simpl andb; cbv beta iota zeta;
    destruct (Qgtb base (maxTemp cfg)) eqn:M; reflect_tests;
    intro S; injection S as <- <- <-;
    (split; [exact D0|]); (split; [reflexivity|]);
    exists n; eexists; (split; [exact G|]); (split; [reflexivity|]);
    split; intro; lra.
Qed.

Lemma X3_no_cap_no_debt_witness :
  maxUpward cfg_default <= 0 /\
  reachable cfg_default noises_three height_09 (Pass2.init cfg_default) /\
  exists s',
    Pass2.transition cfg_default noises_three
      (Pass2.set_thisZ (Pass2.init cfg_default) height_06) "G1 Z0.6" = Ok s' /\
    Pass2.postponedTempDelta s' == 0.
Proof.
  assert (U : maxUpward cfg_default <= 0) by (vm_compute; discriminate).
  split; [exact U|]. split; [apply reach_init|].
  eexists.
  match goal with
  | |- ?t = Ok ?s' /\ _ =>
      assert (T : t = Ok s') by (vm_compute; reflexivity);
      destruct (X3_no_cap_no_debt cfg_default noises_three height_09
                  (Pass2.init cfg_default) height_06 "G1 Z0.6" s'
                  U (reach_init _ _ _) eq_refl T) as (_ & D & _)
  end.
  split; [exact T|exact D].
Defined.

(** X4.  Ceiling.  Whatever the settings and the noise map, the last
    scheduled temperature is never above [maxTemp], in any state of the
    second pass. *)
Theorem X4_scheduled_never_above_maxTemp
    (cfg : Settings) (noises : Dict.t) (lastPatchZ : Q)
    (s : Pass2.st) (l : Q) :
  reachable cfg noises lastPatchZ s ->
  Pass2.postponedTempLast s = Some l ->
  l <= maxTemp cfg.
Proof.
  intro Hs. revert l.
  induction Hs as [|s line s' _ IH R|s l0 b _ IH]; simpl;
    [discriminate| |exact IH].
  destruct (rewrite_line_scheduler _ _ _ _ _ _ R)
    as [[_ ->]|(z & n & temp & _ & S)]; [exact IH|].
  destruct (schedule_cases cfg n (Pass2.postponedTempDelta s)
              (Pass2.postponedTempLast s)) as (t & d & E & _ & U & _).
  rewrite E in S. injection S as _ _ <-.
  intros l L. injection L as <-. exact U.
Qed.

Lemma X4_scheduled_never_above_maxTemp_witness :
  exists s l,
    Pass2.rewrite_line cfg_default noises_three height_09
      (Pass2.init cfg_default) "G1 Z0.6" = Ok s /\
    Pass2.postponedTempLast s = Some l /\
    l <= 230.
Proof.
  eexists.
  match goal with
  | |- exists l, ?t = Ok ?s /\ _ =>
      assert (R : t = Ok s) by (vm_compute; reflexivity)
  end.
  eexists. split; [exact R|]. split; [reflexivity|].
  exact (X4_scheduled_never_above_maxTemp cfg_default noises_three height_09
           _ _ (reach_line _ _ _ _ _ _ (reach_init _ _ _) R) eq_refl).
Defined.

(** ** Lines and layers *)

Section LineFacts.

Lemma startswith_app (p x r : string) :
  Str.startswith p x = true -> Str.startswith p (x ++ r) = true.
Proof.
  revert x. induction p as [|a p IH]; intros x; [reflexivity|].
  destruct x as [|b x]; simpl; [discriminate|].
  destruct (Ascii.eqb a b); simpl; [apply IH|discriminate].
Qed.

Lemma contains_empty (p : string) :
  Str.contains p "" = true -> p = "".
Proof. destruct p; [reflexivity|simpl; discriminate]. Qed.

Lemma contains_tail (p : string) (c : ascii) (s : string) :
  Str.contains p s = true -> Str.contains p (String c s) = true.
Proof.
  intro H. change (Str.startswith p (String c s) || Str.contains p s = true).
  rewrite H. apply orb_true_r.
Qed.

(** The first line of a text is a prefix of it. *)
Lemma split_head (s : string) :
  exists l ls r, Str.split s = l :: ls /\ s = l ++ r.
Proof.
  induction s as [|c s (l & ls & r & E & R)].
  - exists "", [], "". split; reflexivity.
  - simpl. destruct (Ascii.eqb c Str.nl).
    + exists "", (Str.split s), (String c s). split; reflexivity.
    + rewrite E. exists (String c l), ls, r. split; [reflexivity|].
      simpl. rewrite <- R. reflexivity.
Qed.

(** What a line of a layer contains, the layer contains. *)
Lemma split_contains (p s line : string) :
  In line (Str.split s) ->
  Str.contains p line = true ->
  Str.contains p s = true.
Proof.
  revert line. induction s as [|c s IH]; intros line I C.
  - destruct I as [<-|[]]. exact C.
  - simpl in I. destruct (Ascii.eqb c Str.nl).
    + destruct I as [<-|I].
      * apply contains_empty in C. subst p. reflexivity.
      * apply contains_tail. exact (IH line I C).
    + destruct (split_head s) as (l & ls & r & E & R). rewrite E in I.
      destruct I as [<-|I].
      * change (Str.startswith p (String c l) || Str.contains p l = true) in C.
        apply orb_true_iff in C. destruct C as [C|C].
        -- change (Str.startswith p (String c s) || Str.contains p s = true).
           rewrite R. change (String c (l ++ r)) with (String c l ++ r).
           rewrite (startswith_app _ _ r C). reflexivity.
        -- apply contains_tail. apply (IH l); [rewrite E; left; reflexivity|].
           exact C.
      * apply contains_tail. apply (IH line); [rewrite E; right; exact I|].
        exact C.
Qed.

Lemma setitem_length (data : list string) (i : nat) (v : string) :
  List.length (setitem data i v) = List.length data.
Proof.
  revert i. induction data as [|x data IH]; intros [|i]; simpl; auto.
Qed.

End LineFacts.

(** X5.  Past the last height.  Once [thisZ] equals [lastPatchZ] and no
    skip is pending, every line without the [; set extruder] and
    [;woodified] markers leaves all the variables of the second pass as
    they are: nothing more is injected. *)
Theorem X5_lines_after_last_height_pass_through
    (cfg : Settings) (noises : Dict.t) (lastPatchZ : Q)
    (s : Pass2.st) (lines : list string) :
  Pass2.thisZ s == lastPatchZ ->
  (Pass2.skiplines s <= 0)%Z ->
  Forall (fun line =>
            Str.contains "; set extruder " (Str.lower line) = false /\
            Str.contains ";woodified" (Str.lower line) = false) lines ->
  Pass2.rewrite_lines cfg noises lastPatchZ s lines = Ok s.
Proof.
  intros T K F. induction F as [|line lines [C1 C2] _ IH]; [reflexivity|].
  simpl. unfold Pass2.rewrite_line. rewrite C1, C2.
  rewrite Z.gtb_ltb, (proj2 (Z.ltb_ge 0 (Pass2.skiplines s)) K).
  rewrite (proj2 (Qeq_bool_iff _ _) T).
  destruct (negb (Str.contains ";woodgraph" (Str.lower line))); exact IH.
Qed.

Lemma X5_lines_after_last_height_pass_through_witness :
  Pass2.rewrite_lines cfg_default noises_three height_03
    state_relative_layer ["G91"; "G1 Z0.6"; "M104 S0"]
  = Ok state_relative_layer.
Proof.
  apply X5_lines_after_last_height_pass_through.
  - reflexivity.
  - vm_compute. discriminate.
  - repeat constructor.
Defined.

(** X6.  [execute] keeps the number of layers, on return and when an
    exception escapes. *)
Theorem X6_execute_keeps_layer_count
    (math_pow : Q -> Q -> result Q) (cfg : Settings) (shuffled : list Z)
    (data : list string) :
  match Exec.execute math_pow cfg shuffled data with
  | Returned data' => List.length data' = List.length data
  | Raised _ data' => List.length data' = List.length data
  end.
Proof.
  assert (L : forall noises lp todo index header d s,
             match Exec.rewrite_layers cfg noises lp todo index header d s with
             | inl (_, d') => List.length d' = List.length d
             | inr (d', _, _) => List.length d' = List.length d
             end).
  { intros noises lp todo.
    induction todo as [|l todo IH]; intros index header d s; simpl;
      [reflexivity|].
    match goal with
    | |- context [Pass2.rewrite_lines _ _ _ ?s0 ?ls] =>
        destruct (Pass2.rewrite_lines cfg noises lp s0 ls) as [s1|e]
    end.
    - match goal with
      | |- context [Exec.rewrite_layers _ _ _ _ ?i ?h ?d1 ?s2] =>
          specialize (IH i h d1 s2);
          destruct (Exec.rewrite_layers cfg noises lp todo i h d1 s2)
            as [[e d']|[[d' s3] idx]]
      end;
        rewrite IH;
        destruct (Pass2.savelayer s1), header;
        rewrite ?setitem_length; reflexivity.
    - destruct header; rewrite ?setitem_length; reflexivity. }
  unfold Exec.execute.
  destruct (Pass1.run _ _ _ _) as [s1|]; [|reflexivity].
  destruct (Normalize.run _) as [nz|]; [|reflexivity].
  specialize (L nz (Pass1.thisZ s1) data 0%nat true data (Pass2.init cfg)).
  destruct (Exec.rewrite_layers _ _ _ _ _ _ _ _) as [[e d']|[[d' s3] idx]];
    [exact L|].
  destruct data; [exact L|]. rewrite setitem_length. exact L.
Qed.

(** ** Degenerate noise maps *)

(** X7.  When all the values of the noise map are equal (its maximum
    equals its minimum), the normalisation raises [ZeroDivisionError]. *)
Theorem X7_normalize_flat_map_raises (noises : Dict.t) (lo hi : Q) :
  Dict.wf noises ->
  Normalize.noisesMin noises = Ok lo ->
  Normalize.noisesMax noises = Ok hi ->
  lo == hi ->
  Normalize.run noises = Raise ZeroDivisionError.
Proof.
  intros W Hlo Hhi E. unfold Normalize.run. rewrite Hhi, Hlo. simpl bind.
  destruct noises as [|[z v] d]; [discriminate|].
  simpl. unfold Dict.item. simpl.
  rewrite (proj2 (Qeq_bool_iff z z)) by reflexivity. simpl.
  unfold py_div.
  assert (Z : hi - lo == 0) by (rewrite E; ring).
  rewrite (proj2 (Qeq_bool_iff _ _) Z). reflexivity.
Qed.

Lemma X7_normalize_flat_map_raises_witness :
  Normalize.run [(0, 1 # 2); (3 # 10, 1 # 2)] = Raise ZeroDivisionError.
Proof.
  apply (X7_normalize_flat_map_raises _ (1 # 2) (1 # 2));
    [vm_compute; repeat split|reflexivity|reflexivity|reflexivity].
Defined.

(** X8.  A stream in which no layer holds [G90] never leaves relative
    mode: only the hard-encoded height 0 is in the noise map, the
    normalisation divides by zero, and [execute] raises
    [ZeroDivisionError] with the layers untouched.  The empty stream is
    one such. *)
Theorem X8_stream_without_G90_raises
    (math_pow : Q -> Q -> result Q) (cfg : Settings) (shuffled : list Z)
    (data : list string) (n0 : Q) :
  Forall (fun layer => Str.contains "G90" layer = false) data ->
  Pass1.sample math_pow cfg (Perlin.init 256 shuffled) 0 = Ok n0 ->
  Exec.execute math_pow cfg shuffled data = Raised ZeroDivisionError data.
Proof.
  intros F S0. unfold Exec.execute, Pass1.run, Pass1.init.
  rewrite S0. simpl bind.
  set (s0 := {| Pass1.noises := _ |}).
  assert (R : Pass1.scan_layers math_pow cfg (Perlin.init 256 shuffled) s0 data
              = Ok s0).
  { induction F as [|layer data C _ IH]; [reflexivity|]. simpl.
    rewrite scan_lines_no_G90; [exact IH|reflexivity|].
    apply Forall_forall. intros line I.
    destruct (Str.contains "G90" line) eqn:G; [|reflexivity].
    rewrite (split_contains "G90" layer line I G) in C. discriminate. }
  rewrite R. simpl.
  unfold Normalize.run, Normalize.noisesMax, Normalize.noisesMin, Dict.item.
  simpl. unfold py_div.
  assert (Z : n0 - n0 == 0) by ring.
  rewrite (proj2 (Qeq_bool_iff _ _) Z). reflexivity.
Qed.

Lemma X8_stream_without_G90_raises_witness :
  exists n0,
    Pass1.sample pow_exponent_one cfg_default (Perlin.init 256 sample_shuffle) 0
    = Ok n0 /\
    Exec.execute pow_exponent_one cfg_default sample_shuffle
      ["G1 Z0.3" ++ Str.eol ++ "G1 Z0.6" ++ Str.eol; "G1 Z0.9"]
    = Raised ZeroDivisionError
        ["G1 Z0.3" ++ Str.eol ++ "G1 Z0.6" ++ Str.eol; "G1 Z0.9"].
Proof.
  eexists.
  match goal with
  | |- ?t = Ok ?n /\ _ =>
      assert (S0 : t = Ok n) by (vm_compute; reflexivity)
  end.
  split; [exact S0|].
  refine (X8_stream_without_G90_raises pow_exponent_one cfg_default
            sample_shuffle
            ["G1 Z0.3" ++ Str.eol ++ "G1 Z0.6" ++ Str.eol; "G1 Z0.9"]
            _ _ S0).
  repeat constructor.
Defined.

(** ** The first pass *)

(** X9.  Relative moves.  From a line holding [G91] until a line holding
    [G90], the first pass changes nothing but the mode: no height is
    sampled and [thisZ], the future [lastPatchZ], stays as it was. *)
Theorem X9_relative_moves_are_not_sampled
    (math_pow : Q -> Q -> result Q) (cfg : Settings) (perlin : Perlin.t)
    (s : Pass1.st) (line : string) (lines : list string) :
  Str.contains "G91" line = true ->
  Forall (fun l => Str.contains "G90" l = false) lines ->
  Pass1.scan_lines math_pow cfg perlin s (line :: lines)
  = Ok {| Pass1.noises := Pass1.noises s; Pass1.formerZ := Pass1.formerZ s;
          Pass1.thisZ := Pass1.thisZ s; Pass1.absolute := false |}.
Proof.
  intros G F. simpl.
  rewrite scan_line_relative
    by (unfold mode_after; rewrite G; reflexivity).
  simpl. apply scan_lines_no_G90; [reflexivity|exact F].
Qed.

Lemma X9_relative_moves_are_not_sampled_witness :
  Pass1.scan_lines pow_exponent_one cfg_default (Perlin.init 256 sample_shuffle)
    {| Pass1.noises := [(0, 1 # 2)]; Pass1.formerZ := height_03;
       Pass1.thisZ := height_03; Pass1.absolute := true |}
    ["G91"; "G1 Z5 F300"; "G1 X0 Y200"]
  = Ok {| Pass1.noises := [(0, 1 # 2)]; Pass1.formerZ := height_03;
          Pass1.thisZ := height_03; Pass1.absolute := false |}.
Proof.
  apply (X9_relative_moves_are_not_sampled pow_exponent_one cfg_default
           (Perlin.init 256 sample_shuffle)
           {| Pass1.noises := [(0, 1 # 2)]; Pass1.formerZ := height_03;
              Pass1.thisZ := height_03; Pass1.absolute := true |});
    [reflexivity|repeat constructor].
Defined.

(** ** Reading fields *)

Section FieldFacts.

Lemma find_from_ge (p s : string) (i : Z) :
  Str.contains p s = true -> (i <= Str.find_from p s i)%Z.
Proof.
  revert i. induction s as [|c s IH]; intros i C.
  - simpl in *. rewrite orb_false_r in C. rewrite C. lia.
  - change (Str.startswith p (String c s) || Str.contains p s = true) in C.
    cbn [Str.find_from].
    destruct (Str.startswith p (String c s)); [lia|].
    simpl in C. specialize (IH (i + 1)%Z C). lia.
Qed.

(** A key without [;] that matches at the start of [x ++ ";" ++ b]
    matches inside [x]. *)
Lemma startswith_before_semicolon (key x b : string) :
  has_char ";" key = false ->
  Str.startswith key (x ++ String ";" b) = true ->
  Str.startswith key x = true.
Proof.
  revert x. induction key as [|k key IH]; intros x H S; [reflexivity|].
  simpl in H. apply orb_false_iff in H. destruct H as [Hk H].
  destruct x as [|c x]; simpl in S |- *.
  - apply andb_true_iff in S. destruct S as [S _].
    congruence.
  - apply andb_true_iff in S. destruct S as [S1 S2].
    rewrite S1. simpl. exact (IH x H S2).
Qed.

Lemma contains_inv (p : string) (c : ascii) (s : string) :
  Str.contains p (String c s) = true ->
  Str.startswith p (String c s) = false ->
  Str.contains p s = true.
Proof.
  intros C S.
  change (Str.startswith p (String c s) || Str.contains p s = true) in C.
  rewrite S in C. exact C.
Qed.

Lemma contains_semicolon (a b : string) :
  Str.contains ";" (a ++ String ";" b) = true.
Proof.
  induction a as [|c a IH]; [reflexivity|].
  apply contains_tail. exact IH.
Qed.

(** In [a ++ ";" ++ b], a key that does not occur in [a] occurs, if at
    all, after the first [;]. *)
Lemma find_after_semicolon (key a b : string) (i : Z) :
  has_char ";" key = false ->
  key <> "" ->
  Str.contains key a = false ->
  Str.contains key (a ++ String ";" b) = true ->
  (Str.find_from ";" (a ++ String ";" b) i
   < Str.find_from key (a ++ String ";" b) i)%Z.
Proof.
  intros H N. revert i. induction a as [|c a IH]; intros i A C.
  - change ("" ++ String ";" b) with (String ";" b) in *.
    assert (S : Str.startswith key (String ";" b) = false).
    { destruct key as [|k key]; [contradiction|]. simpl in H |- *.
      apply orb_false_iff in H. destruct H as [Hk _]. rewrite Hk.
      reflexivity. }
    cbn [Str.find_from]. rewrite S.
    change (Str.startswith ";" (String ";" b)) with true. cbv iota.
    pose proof (find_from_ge key b (i + 1) (contains_inv _ _ _ C S)). lia.
  - change (String c a ++ String ";" b) with (String c (a ++ String ";" b))
      in *.
    change (Str.startswith key (String c a) || Str.contains key a = false)
      in A.
    apply orb_false_iff in A. destruct A as [A1 A2].
    assert (S : Str.startswith key (String c (a ++ String ";" b)) = false).
    { destruct (Str.startswith key (String c (a ++ String ";" b))) eqn:E;
        [|reflexivity].
      change (String c (a ++ String ";" b))
        with (String c a ++ String ";" b) in E.
      rewrite (startswith_before_semicolon key (String c a) b H E) in A1.
      discriminate. }
    pose proof (contains_inv _ _ _ C S) as C'.
    cbn [Str.find_from]. rewrite S.
    destruct (Str.startswith ";" (String c (a ++ String ";" b))).
    + pose proof (find_from_ge key _ (i + 1) C'). lia.
    + exact (IH (i + 1)%Z A2 C').
Qed.

(** A field whose key first occurs after a [;] is not read. *)
Lemma getValue_commented {A : Type} (num : Q -> A) (key a b : string)
    (default : A) :
  has_char ";" key = false ->
  key <> "" ->
  Str.contains key a = false ->
  getValue num (a ++ String ";" b) key default = default.
Proof.
  intros H N C. unfold getValue.
  destruct (Str.contains key (a ++ String ";" b)) eqn:E; [|reflexivity].
  rewrite contains_semicolon. simpl negb. simpl orb.
  unfold Str.find.
  rewrite (proj2 (Z.ltb_lt _ _) (find_after_semicolon key a b 0 H N C E)).
  reflexivity.
Qed.

Lemma no_char_no_key (c : ascii) (p s : string) :
  has_char c s = false -> Str.contains (String c p) s = false.
Proof.
  intro H. destruct (Str.contains (String c p) s) eqn:E; [|reflexivity].
  rewrite (contains_has_char _ _ _ E) in H. discriminate.
Qed.

Lemma has_char_app (c : ascii) (a b : string) :
  has_char c (a ++ b) = has_char c a || has_char c b.
Proof.
  induction a as [|x a IH]; simpl; [reflexivity|].
  rewrite IH. apply orb_assoc.
Qed.

End FieldFacts.

(** X10.  Comments.  [getValue] does not read a field whose key first
    occurs after the first [;] of the line: it returns the default. *)
Theorem X10_getValue_skips_commented_field
    (A : Type) (num : Q -> A) (key before after : string) (default : A) :
  has_char ";" key = false ->
  key <> "" ->
  Str.contains key before = false ->
  getValue num (before ++ ";" ++ after) key default = default.
Proof.
  intros H N C. exact (getValue_commented num key before after default H N C).
Qed.

Lemma X10_getValue_skips_commented_field_witness :
  getValue Some ("G1 X5 " ++ ";" ++ " Z0.3 up") "Z" None = None /\
  getValue Some "G1 X5 Z0.3 up" "Z" None = Some (3 # 10).
Proof.
  split; [|reflexivity].
  apply X10_getValue_skips_commented_field;
    [reflexivity|discriminate|reflexivity].
Defined.

(** X11.  The lines the script writes are no Z moves: for the injected
    command, for a line of the startup block and for a row of the graph,
    [getZ] returns the default, so a later run does not take them for a
    height. *)
Theorem X11_written_lines_are_not_heights
    (A : Type) (num : Q -> A) (temp z : Q) (t : Z) (default : A) :
  getZ num ("M104 S" ++ Num.fmt_i temp ++ " ; Wood Grain") default = default /\
  getZ num ("M104 S" ++ Num.fmt_i temp) default = default /\
  getZ num (Pass2.graph_row z temp t) default = default.
Proof.
  assert (P : has_char "G" ("M104 S" ++ Num.fmt_i temp) = false).
  { rewrite has_char_app. change (has_char "G" "M104 S") with false.
    simpl orb. apply plain_no_char; [reflexivity|apply plain_fmt_i]. }
  split; [|split]; unfold getZ.
  - replace ("M104 S" ++ Num.fmt_i temp ++ " ; Wood Grain")
      with (("M104 S" ++ Num.fmt_i temp ++ " ") ++ String ";" " Wood Grain")
      by (rewrite !append_assoc; reflexivity).
    rewrite getValue_commented; [reflexivity|reflexivity|discriminate|].
    apply no_char_no_key. rewrite <- append_assoc, has_char_app, P.
    reflexivity.
  - unfold getValue at 1 2. rewrite (no_char_no_key "G" "" _ P). reflexivity.
  - unfold Pass2.graph_row.
    change (";WoodGraph: Z " ++ ?x) with ("" ++ String ";" ("WoodGraph: Z " ++ x)).
    rewrite getValue_commented; [reflexivity|reflexivity|discriminate|].
    reflexivity.
Qed.

(** ** Printing and reading integers *)

Section RoundTrip.








End RoundTrip.

Section ReadBack.







Lemma length_app (a b : string) :
  String.length (a ++ b) = (String.length a + String.length b)%nat.
Proof. induction a as [|c a IH]; simpl; congruence. Qed.

End ReadBack.



(** ** Perlin noise *)

Section PerlinFacts.

Lemma sample_shuffle_ok : shuffle_ok sample_shuffle.
Proof.
  split; [reflexivity|].
  unfold sample_shuffle. apply Forall_forall. intros v I.
  apply in_map_iff in I. destruct I as (i & <- & _).
  apply Z.mod_pos_bound. reflexivity.
Qed.


Lemma fade_0 : Perlin.fade 0 = 0.
Proof. reflexivity. Qed.

(** A blend of null weight is its first operand, rounded. *)
Lemma lerp_0 (a b : Q) : Perlin.lerp 0 a b = F64.round a.
Proof.
  unfold Perlin.lerp, F64.add, F64.mul.
  rewrite (round_compat (0 * F64.sub b a) 0) by ring.
  apply round_compat. rewrite round_0. ring.
Qed.

Lemma grad_0 (hash : Z) : Perlin.grad hash 0 0 0 = 0.
Proof.
  unfold Perlin.grad.
  repeat match goal with
    | |- context [if ?c then _ else _] => destruct c
    end; reflexivity.
Qed.

Lemma sub_self (x : Q) : F64.sub x x = 0.
Proof.
  unfold F64.sub. rewrite (round_compat (x - x) 0) by ring. reflexivity.
Qed.

Lemma int_inject_Z (i : Z) : Num.int (inject_Z i) = i.
Proof. unfold Num.int. simpl. apply Z.quot_1_r. Qed.


End PerlinFacts.

Section Enclosures.

Lemma qmin_l (a b : Q) : Ival.qmin a b <= a.
Proof.
  unfold Ival.qmin. destruct (Qle_bool a b) eqn:E; [apply Qle_refl|].
  destruct (Qlt_le_dec b a) as [L|L]; [apply Qlt_le_weak; exact L|].
  apply Qle_bool_iff in L. congruence.
Qed.

Lemma qmin_r (a b : Q) : Ival.qmin a b <= b.
Proof.
  unfold Ival.qmin. destruct (Qle_bool a b) eqn:E; [|apply Qle_refl].
  apply Qle_bool_iff. exact E.
Qed.

Lemma qmax_l (a b : Q) : a <= Ival.qmax a b.
Proof.
  unfold Ival.qmax. destruct (Qle_bool a b) eqn:E; [|apply Qle_refl].
  apply Qle_bool_iff. exact E.
Qed.

Lemma qmax_r (a b : Q) : b <= Ival.qmax a b.
Proof.
  unfold Ival.qmax. destruct (Qle_bool a b) eqn:E; [apply Qle_refl|].
  destruct (Qlt_le_dec b a) as [L|L]; [apply Qlt_le_weak; exact L|].
  apply Qle_bool_iff in L. congruence.
Qed.

(** A product is between the products at the ends of an interval. *)
Lemma mul_between (l h x k : Q) :
  l <= x <= h ->
  Ival.qmin (l * k) (h * k) <= x * k <= Ival.qmax (l * k) (h * k).
Proof.
  intros [A B].
  pose proof (qmin_l (l * k) (h * k)). pose proof (qmin_r (l * k) (h * k)).
  pose proof (qmax_l (l * k) (h * k)). pose proof (qmax_r (l * k) (h * k)).
  destruct (Qlt_le_dec k 0) as [N|P].
  - assert (h * k <= x * k) by nra. assert (x * k <= l * k) by nra.
    split; lra.
  - assert (l * k <= x * k) by nra. assert (x * k <= h * k) by nra.
    split; lra.
Qed.

Lemma round_sound (x : Q) (i : Ival.t) :
  Ival.mem x i -> Ival.mem (F64.round x) (Ival.round i).
Proof. intros [A B]. split; apply round_le; assumption. Qed.

Lemma opp_sound (x : Q) (i : Ival.t) : Ival.mem x i -> Ival.mem (- x) (Ival.opp i).
Proof. intros [A B]. unfold Ival.mem, Ival.opp. simpl. split; lra. Qed.

Lemma add_sound (x y : Q) (i j : Ival.t) :
  Ival.mem x i -> Ival.mem y j -> Ival.mem (F64.add x y) (Ival.add i j).
Proof.
  intros [A B] [C D]. split; apply round_le; simpl; lra.
Qed.

Lemma sub_sound (x y : Q) (i j : Ival.t) :
  Ival.mem x i -> Ival.mem y j -> Ival.mem (F64.sub x y) (Ival.sub i j).
Proof.
  intros [A B] [C D]. split; apply round_le; simpl; lra.
Qed.

Lemma mul_sound (x y : Q) (i j : Ival.t) :
  Ival.mem x i -> Ival.mem y j -> Ival.mem (F64.mul x y) (Ival.mul i j).
Proof.
  intros Hx Hy. destruct i as [a b], j as [c d].
  unfold Ival.mem in Hx, Hy. simpl in Hx, Hy.
  pose proof (mul_between a b x y Hx) as [X1 X2].
  pose proof (mul_between c d y a Hy) as [Y1 Y2].
  pose proof (mul_between c d y b Hy) as [Z1 Z2].
  assert (Ea : a * y == y * a) by ring. assert (Eb : b * y == y * b) by ring.
  assert (Eac : a * c == c * a) by ring. assert (Ead : a * d == d * a) by ring.
  assert (Ebc : b * c == c * b) by ring. assert (Ebd : b * d == d * b) by ring.
  unfold Ival.mul, F64.mul. cbn [fst snd].
  set (ll := a * c) in *. set (lh := a * d) in *.
  set (hl := b * c) in *. set (hh := b * d) in *.
  pose proof (qmin_l (Ival.qmin ll lh) (Ival.qmin hl hh)).
  pose proof (qmin_r (Ival.qmin ll lh) (Ival.qmin hl hh)).
  pose proof (qmax_l (Ival.qmax ll lh) (Ival.qmax hl hh)).
  pose proof (qmax_r (Ival.qmax ll lh) (Ival.qmax hl hh)).
  assert (L1 : Ival.qmin ll lh <= a * y).
  { revert Y1. unfold Ival.qmin.
    rewrite <- (Qleb_comp _ _ Eac _ _ Ead).
    destruct (Qle_bool ll lh); lra. }
  assert (L2 : Ival.qmin hl hh <= b * y).
  { revert Z1. unfold Ival.qmin.
    rewrite <- (Qleb_comp _ _ Ebc _ _ Ebd).
    destruct (Qle_bool hl hh); lra. }
  assert (U1 : a * y <= Ival.qmax ll lh).
  { revert Y2. unfold Ival.qmax.
    rewrite <- (Qleb_comp _ _ Eac _ _ Ead).
    destruct (Qle_bool ll lh); lra. }
  assert (U2 : b * y <= Ival.qmax hl hh).
  { revert Z2. unfold Ival.qmax.
    rewrite <- (Qleb_comp _ _ Ebc _ _ Ebd).
    destruct (Qle_bool hl hh); lra. }
  assert (N1 : Ival.qmin (a * y) (b * y) == a * y
               \/ Ival.qmin (a * y) (b * y) == b * y).
  { unfold Ival.qmin. destruct (Qle_bool _ _); [left|right]; reflexivity. }
  assert (N2 : Ival.qmax (a * y) (b * y) == a * y
               \/ Ival.qmax (a * y) (b * y) == b * y).
  { unfold Ival.qmax. destruct (Qle_bool _ _); [right|left]; reflexivity. }
  split; apply round_le.
  - destruct N1 as [N1|N1]; lra.
  - destruct N2 as [N2|N2]; lra.
Qed.

Lemma point_sound (c : Q) : Ival.mem c (Ival.point c).
Proof. split; apply Qle_refl. Qed.

Lemma fade_sound (x : Q) (i : Ival.t) :
  Ival.mem x i -> Ival.mem (Perlin.fade x) (Ival.fade i).
Proof.
  intro H. unfold Perlin.fade, Ival.fade.
  repeat first [apply mul_sound | apply add_sound | apply sub_sound
               | apply point_sound | exact H].
Qed.

Lemma lerp_sound (t a b : Q) (i ia ib : Ival.t) :
  Ival.mem t i -> Ival.mem a ia -> Ival.mem b ib ->
  Ival.mem (Perlin.lerp t a b) (Ival.lerp i ia ib).
Proof.
  intros Ht Ha Hb. unfold Perlin.lerp, Ival.lerp.
  apply add_sound; [exact Ha|]. apply mul_sound; [exact Ht|].
  apply sub_sound; assumption.
Qed.

Lemma axis_enclosure_sound (z g0 g1 : Q) (iz i0 i1 : Ival.t) :
  Ival.mem z iz -> Ival.mem g0 i0 -> Ival.mem g1 i1 ->
  Ival.mem (noise_on_axis z g0 g1) (axis_enclosure iz i0 i1).
Proof.
  intros Hz H0 H1. unfold noise_on_axis, axis_enclosure.
  apply lerp_sound; [apply fade_sound; exact Hz| |];
    do 2 apply round_sound; assumption.
Qed.

(** With [x] and [y] null, a gradient is the double nearest to 0, to [z]
    or to [-z]. *)
Lemma grad_on_axis (hash : Z) (z : Q) (iz : Ival.t) :
  Ival.mem z iz ->
  exists i, In i (axis_grads iz) /\ Ival.mem (Perlin.grad hash 0 0 z) i.
Proof.
  intro H. unfold Perlin.grad, axis_grads, F64.add.
  assert (A : forall c, c == 0 ->
            exists i, In i (map Ival.round [Ival.point 0; iz; Ival.opp iz]) /\
                      Ival.mem (F64.round c) i).
  { intros c E. exists (Ival.round (Ival.point 0)). split; [left; reflexivity|].
    rewrite (round_compat c 0 E). apply round_sound, point_sound. }
  assert (B : forall c, c == z ->
            exists i, In i (map Ival.round [Ival.point 0; iz; Ival.opp iz]) /\
                      Ival.mem (F64.round c) i).
  { intros c E. exists (Ival.round iz). split; [right; left; reflexivity|].
    rewrite (round_compat c z E). apply round_sound, H. }
  assert (C : forall c, c == - z ->
            exists i, In i (map Ival.round [Ival.point 0; iz; Ival.opp iz]) /\
                      Ival.mem (F64.round c) i).
  { intros c E. exists (Ival.round (Ival.opp iz)).
    split; [right; right; left; reflexivity|].
    rewrite (round_compat c (- z) E). apply round_sound, opp_sound, H. }
  repeat match goal with
    | |- context [if ?c then _ else _] => destruct c
    end;
    first [apply A; ring | apply B; ring | apply C; ring].
Qed.

(** The enclosures stay within [[-1, 1]], piece by piece and for every
    pair of gradients. *)
Lemma axis_check_ok :
  forallb (fun k =>
    forallb (fun i0 =>
      forallb (fun i1 =>
        Ival.subset (axis_enclosure (axis_piece k) i0 i1) (- (1), 1))
        (axis_grads (Ival.sub (axis_piece k) (Ival.point 1))))
      (axis_grads (axis_piece k)))
    (map Z.of_nat (seq 0 16)) = true.
Proof. vm_compute. reflexivity. Qed.

Lemma in_range (n : nat) (k : Z) :
  (0 <= k < Z.of_nat n)%Z -> In k (map Z.of_nat (seq 0 n)).
Proof.
  intro H. apply in_map_iff. exists (Z.to_nat k). split; [lia|].
  apply in_seq. lia.
Qed.

Lemma subset_spec (i : Ival.t) (lo hi x : Q) :
  Ival.subset i (lo, hi) = true -> Ival.mem x i -> lo <= x <= hi.
Proof.
  unfold Ival.subset, Ival.mem. cbn [fst snd]. intros C [A B].
  apply andb_true_iff in C. destruct C as [C1 C2].
  apply Qle_bool_iff in C1. apply Qle_bool_iff in C2. split; lra.
Qed.

Lemma piece_holds (z : Q) :
  0 <= z <= 1 -> exists k, (0 <= k < 16)%Z /\ Ival.mem z (axis_piece k).
Proof.
  intros [A B]. exists (Z.min (Qfloor (z * 16)) 15).
  set (k := Z.min (Qfloor (z * 16)) 15).
  assert (K : (0 <= k < 16)%Z).
  { unfold k. assert (0 <= Qfloor (z * 16))%Z; [|lia].
    change 0%Z with (Qfloor 0). apply Qfloor_resp_le. lra. }
  split; [exact K|].
  unfold Ival.mem, axis_piece. cbn [fst snd].
  pose proof (Qfloor_le (z * 16)) as F1.
  pose proof (Qlt_floor (z * 16)) as F2.
  rewrite inject_Z_plus in F2. change (inject_Z 1) with 1 in F2.
  assert (K1 : inject_Z k <= inject_Z (Qfloor (z * 16)))
    by (rewrite <- Zle_Qle; unfold k; lia).
  split.
  - apply Qle_shift_div_r; [reflexivity|]. lra.
  - apply Qle_shift_div_l; [reflexivity|].
    destruct (Z.eq_dec k 15) as [E|N].
    + rewrite E. change (inject_Z 15) with 15. lra.
    + assert (k = Qfloor (z * 16)) as -> by (unfold k in *; lia). lra.
Qed.

(** On the axis the noise is within [[-1, 1]]. *)
Lemma noise_on_axis_bounded (h0 h1 : Z) (z : Q) :
  0 <= z <= 1 ->
  - (1) <= noise_on_axis z (Perlin.grad h0 0 0 z)
             (Perlin.grad h1 0 0 (F64.sub z 1)) <= 1.
Proof.
  intro H. destruct (piece_holds z H) as (k & K & P).
  assert (P1 : Ival.mem (F64.sub z 1) (Ival.sub (axis_piece k) (Ival.point 1)))
    by (apply sub_sound; [exact P|apply point_sound]).
  destruct (grad_on_axis h0 z _ P) as (i0 & I0 & G0).
  destruct (grad_on_axis h1 (F64.sub z 1) _ P1) as (i1 & I1 & G1).
  pose proof axis_check_ok as C.
  rewrite forallb_forall in C. specialize (C k (in_range 16 k K)).
  rewrite forallb_forall in C. specialize (C i0 I0).
  rewrite forallb_forall in C. specialize (C i1 I1).
  exact (subset_spec _ _ _ _ C (axis_enclosure_sound _ _ _ _ _ _ P G0 G1)).
Qed.

End Enclosures.



(** X14.  On the lattice.  At a point with integer coordinates the noise
    is 0. *)
Theorem X14_noise_vanishes_on_lattice
    (shuffled : list Z) (i j k : Z) :
  shuffle_ok shuffled ->
  exists n,
    Perlin.noise (Perlin.init 256 shuffled)
      (inject_Z i) (inject_Z j) (inject_Z k) = Ok n /\
    n == 0.
Proof.
  intro S. unfold Perlin.noise. cbn [Perlin.tiledim Perlin.init].
  rewrite !int_inject_Z.
  pose proof (land_tile i) as HX.
  pose proof (land_tile j) as HY.
  pose proof (land_tile k) as HZ.
  set (X := Z.land i (256 - 1)) in *.
  set (Y := Z.land j (256 - 1)) in *.
  set (Z' := Z.land k (256 - 1)) in *.
  repeat match goal with
    | |- context [bind (getitem ?p ?a) _] =>
        let v := fresh "v" in
        let E := fresh "E" in
        let B := fresh "B" in
        destruct (getitem_perm shuffled S a) as (v & E & B); [lia|];
        rewrite E; cbn [bind]
    end.
  eexists. split; [reflexivity|].
  rewrite !sub_self, fade_0, !lerp_0, grad_0. reflexivity.
Qed.

Lemma X14_noise_vanishes_on_lattice_witness :
  exists n,
    Perlin.noise (Perlin.init 256 sample_shuffle) 3 (- (7)) 300 = Ok n /\
    n == 0.
Proof.
  exact (X14_noise_vanishes_on_lattice sample_shuffle 3 (-7) 300
           sample_shuffle_ok).
Defined.

(** X15.  On the axis the script samples ([x = y = 0], [z >= 0]) the
    noise lies in [[-1, 1]]: it is the blend of the gradients at the two
    corners the height lies between, one bounded by the fractional part of
    [z] and one by its complement; the bound holds with every operation
    rounded. *)
Theorem X15_noise_on_axis_is_bounded
    (shuffled : list Z) (z : Q) :
  shuffle_ok shuffled ->
  0 <= z ->
  exists n,
    Perlin.noise (Perlin.init 256 shuffled) 0 0 z = Ok n /\
    - (1) <= n <= 1.
Proof.
  intros S Hz. unfold Perlin.noise. cbn [Perlin.tiledim Perlin.init].
  pose proof (land_tile (Num.int 0)) as HX.
  pose proof (land_tile (Num.int z)) as HZ.
  set (X := Z.land (Num.int 0) (256 - 1)) in *.
  set (Z' := Z.land (Num.int z) (256 - 1)) in *.
  repeat match goal with
    | |- context [bind (getitem ?p ?a) _] =>
        let v := fresh "v" in
        let E := fresh "E" in
        let B := fresh "B" in
        destruct (getitem_perm shuffled S a) as (v & E & B); [lia|];
        rewrite E; cbn [bind]
    end.
  eexists. split; [reflexivity|].
  change (F64.sub 0 (inject_Z (Num.int 0))) with 0.
  rewrite fade_0, !lerp_0.
  destruct (int_nonneg_bounds z Hz) as [Z1 Z2].
  set (fz := F64.sub z (inject_Z (Num.int z))).
  assert (Fz : 0 <= fz <= 1).
  { unfold fz, F64.sub. split.
    - apply round_nonneg. lra.
    - rewrite <- round_1. apply round_le. lra. }
  match goal with
  | |- _ <= Perlin.lerp _ (F64.round (F64.round (Perlin.grad ?h0 _ _ _)))
             (F64.round (F64.round (Perlin.grad ?h1 _ _ _))) <= _ =>
      exact (noise_on_axis_bounded h0 h1 fz Fz)
  end.
Qed.

Lemma X15_noise_on_axis_is_bounded_witness :
  exists n,
    Perlin.noise (Perlin.init 256 sample_shuffle) 0 0 (1 # 6) = Ok n /\
    - (1) <= n <= 1.
Proof.
  apply (X15_noise_on_axis_is_bounded sample_shuffle (1 # 6)
           sample_shuffle_ok).
  vm_compute. discriminate.
Defined.

(** ** The graph *)

Section GraphFacts.

Lemma repeat_char_length (c : ascii) (n : nat) :
  String.length (Str.repeat_char c n) = n.
Proof. induction n as [|n IH]; simpl; congruence. Qed.








End GraphFacts.

(** X16.  The bar of a graph row.  For a temperature within
    [[minTemp, maxTemp]] (with [minTemp < maxTemp]) the number of [#] is
    between 0 and 19 and the bar, made of [#] then [.], is 19 characters
    wide. *)
Theorem X16_graph_bar_is_19_wide (cfg : Settings) (z temp : Q) :
  minTemp cfg < maxTemp cfg ->
  minTemp cfg <= temp <= maxTemp cfg ->
  exists d,
    py_div (19 * (temp - minTemp cfg)) (maxTemp cfg - minTemp cfg) = Ok d /\
    (0 <= Num.int d <= 19)%Z /\
    exists bar,
      Pass2.graph_row z temp (Num.int d)
      = ";WoodGraph: Z " ++ Num.fmt_f z ++ " " ++ "@" ++ Num.fmt_3i temp
        ++ "C | " ++ bar /\
      bar = Str.repeat_char "#" (Z.to_nat (Num.int d))
            ++ Str.repeat_char "." (19 - Z.to_nat (Num.int d)) /\
      String.length bar = 19%nat.
Proof.
  intros R [A B]. unfold py_div.
  assert (N : ~ maxTemp cfg - minTemp cfg == 0) by lra.
  rewrite (proj2 (Qeq_bool_false _ _) N).
  set (d := 19 * (temp - minTemp cfg) / (maxTemp cfg - minTemp cfg)).
  exists d. split; [reflexivity|].
  assert (D : 0 <= d <= 19).
  { unfold d. split.
    - apply Qle_shift_div_l; lra.
    - apply Qle_shift_div_r; lra. }
  destruct (int_nonneg_bounds d (proj1 D)) as [I1 I2].
  assert (T : (0 <= Num.int d <= 19)%Z).
  { split.
    - destruct (Z_lt_le_dec (Num.int d) 0) as [L|L]; [|exact L].
      exfalso. assert (inject_Z (Num.int d) <= inject_Z (-1)) as H
        by (rewrite <- Zle_Qle; lia).
      change (inject_Z (-1)) with (- (1)) in H. lra.
    - rewrite Zle_Qle. change (inject_Z 19) with 19. lra. }
  split; [exact T|].
  eexists. split; [reflexivity|]. split.
  - f_equal. f_equal. lia.
  - rewrite length_app, !repeat_char_length. lia.
Qed.

Lemma X16_graph_bar_is_19_wide_witness :
  exists bar,
    Pass2.graph_row height_06 (9423 # 50) 3
    = ";WoodGraph: Z 0.600000 @188C | " ++ bar /\
    String.length bar = 19%nat.
Proof.
  destruct (X16_graph_bar_is_19_wide cfg_default height_06 (9423 # 50))
    as (d & E & _ & bar & G & _ & L);
    [reflexivity|split; vm_compute; discriminate|].
  injection E as <-. exists bar. split; [exact G|exact L].
Defined.



(** ** More on the second pass *)

Section SkipFacts.

Variable cfg : Settings.
Variable noises : Dict.t.
Variable lastPatchZ : Q.

(** While lines are being skipped, a line only counts down. *)
Lemma rewrite_lines_skipping (lines : list string) (s : Pass2.st) :
  Pass2.skiplines s = Z.of_nat (List.length lines) ->
  Forall (fun line =>
            Str.contains "; set extruder " (Str.lower line) = false) lines ->
  Pass2.rewrite_lines cfg noises lastPatchZ s lines
  = Ok {| Pass2.layer := Pass2.layer s;
          Pass2.warmingTempCommands := Pass2.warmingTempCommands s;
          Pass2.savelayer := Pass2.savelayer s;
          Pass2.skiplines := 0%Z;
          Pass2.thisZ := Pass2.thisZ s; Pass2.formerZ := Pass2.formerZ s;
          Pass2.postponedTempDelta := Pass2.postponedTempDelta s;
          Pass2.postponedTempLast := Pass2.postponedTempLast s;
          Pass2.graphStr := Pass2.graphStr s |}.
Proof.
  intros K F. revert s K. induction F as [|line lines C _ IH]; intros s K.
  - simpl in *. destruct s; simpl in *. subst. reflexivity.
  - cbn [Pass2.rewrite_lines]. unfold Pass2.rewrite_line. rewrite C.
    assert (P : (Pass2.skiplines s >? 0)%Z = true).
    { apply Z.gtb_lt. rewrite K. cbn [List.length].
      rewrite Nat2Z.inj_succ. lia. }
    rewrite P. cbn [bind]. rewrite IH; [reflexivity|].
    cbn [Pass2.skiplines]. rewrite K. cbn [List.length].
    rewrite Nat2Z.inj_succ. lia.
Qed.

End SkipFacts.

(** X18.  The marker [;woodified].  A line holding it (in any case) hides
    the four lines that follow from the second pass: after the five lines
    the variables are exactly as before, whatever heights or temperature
    commands the four lines carry. *)
Theorem X18_woodified_hides_four_lines
    (cfg : Settings) (noises : Dict.t) (lastPatchZ : Q)
    (s : Pass2.st) (marker : string) (hidden : list string) :
  Pass2.skiplines s = 0%Z ->
  Str.contains ";woodified" (Str.lower marker) = true ->
  List.length hidden = 4%nat ->
  Forall (fun line =>
            Str.contains "; set extruder " (Str.lower line) = false)
    (marker :: hidden) ->
  Pass2.rewrite_lines cfg noises lastPatchZ s (marker :: hidden) = Ok s.
Proof.
  intros K M L F. inversion F as [|? ? C F']; subst.
  cbn [Pass2.rewrite_lines]. unfold Pass2.rewrite_line.
  rewrite C, K, M. cbn [Z.gtb Z.compare bind].
  rewrite rewrite_lines_skipping; [|cbn [Pass2.skiplines]; rewrite L;
                                    reflexivity|exact F'].
  destruct s; simpl in *. subst. reflexivity.
Qed.

Lemma X18_woodified_hides_four_lines_witness :
  Pass2.rewrite_lines cfg_default noises_three height_09
    state_relative_layer
    [";Woodified gcode"; "M230 S0"; "G1 Z0.6"; "M230 S1"; "M116"]
  = Ok state_relative_layer.
Proof.
  apply X18_woodified_hides_four_lines;
    [reflexivity|reflexivity|reflexivity|repeat constructor].
Defined.

(** X19.  Invariants of the second pass.  In every state of the loop,
    [skiplines] is between 0 and 4, [formerZ] is -1 or a height of the
    noise map, and [warmingTempCommands] is the header block or empty. *)
Theorem X19_second_pass_invariants
    (cfg : Settings) (noises : Dict.t) (lastPatchZ : Q) (s : Pass2.st) :
  reachable cfg noises lastPatchZ s ->
  (0 <= Pass2.skiplines s <= 4)%Z /\
  (Pass2.formerZ s = - (1) \/ Dict.mem (Pass2.formerZ s) noises = true) /\
  (Pass2.warmingTempCommands s = Pass2.warming cfg
   \/ Pass2.warmingTempCommands s = "").
Proof.
  induction 1 as [|s line s' _ (K & F & W) R|s l b _ IH].
  - simpl. split; [lia|]. split; left; reflexivity.
  - revert R. unfold Pass2.rewrite_line.
    destruct (Str.contains "; set extruder " (Str.lower line)).
    { intro R. injection R as <-. simpl. auto. }
    destruct (Pass2.skiplines s >? 0)%Z eqn:P.
    { intro R. injection R as <-. simpl. apply Z.gtb_lt in P.
      split; [lia|auto]. }
    destruct (Str.contains ";woodified" (Str.lower line)).
    { intro R. injection R as <-. simpl. split; [lia|auto]. }
    destruct (negb (Str.contains ";woodgraph" (Str.lower line)));
      [|intro R; injection R as <-; auto].
    destruct (Qeq_bool (Pass2.thisZ s) lastPatchZ);
      [intro R; injection R as <-; auto|].
    destruct (negb (Str.contains "m104" (Str.lower line)));
      [|intro R; injection R as <-; auto].
    set (z := getZ F64.round line (Pass2.formerZ s)).
    destruct (negb (Qeq_bool z (Pass2.formerZ s)) && Dict.mem z noises) eqn:C;
      [|intro R; injection R as <-; simpl; auto].
    apply andb_true_iff in C. destruct C as [_ M]. intro T.
    destruct (Pass2.keeps_first cfg z) eqn:Kf.
    + destruct (transition_keeps_first cfg noises (Pass2.set_thisZ s z) line
                  s' Kf T) as [t ->]. simpl. auto.
    + destruct (transition_scheduled cfg noises (Pass2.set_thisZ s z) line
                  s' Kf T) as (n & temp & t & _ & _ & ->). simpl. auto.
  - simpl. exact IH.
Qed.

Lemma X19_second_pass_invariants_witness :
  exists s,
    Pass2.rewrite_lines cfg_default noises_three height_09
      (Pass2.init cfg_default) [";woodified"; "G1 Z0.3"] = Ok s /\
    (0 <= Pass2.skiplines s <= 4)%Z.
Proof.
  eexists.
  match goal with
  | |- ?t = Ok ?s /\ _ =>
      assert (R : t = Ok s) by (vm_compute; reflexivity)
  end.
  split; [exact R|].
  refine (proj1 (X19_second_pass_invariants cfg_default noises_three height_09
                   _ _)).
  apply (rewrite_lines_reachable _ _ _ _ _ _ (reach_init _ _ _) R).
Defined.

(** ** More on the first pass *)

Section FirstPassKeys.

Lemma mem_set (k k' v : Q) (d : Dict.t) :
  Dict.mem k d = true -> Dict.mem k (Dict.set k' v d) = true.
Proof.
  unfold Dict.mem. intro M.
  destruct (Qeq_bool k' k) eqn:E.
  - rewrite <- (get_compat k' k _ E), get_set_same. reflexivity.
  - rewrite get_set_other by exact E. exact M.
Qed.

Lemma scan_line_mem (math_pow : Q -> Q -> result Q) (cfg : Settings)
    (perlin : Perlin.t) (k : Q) (s s' : Pass1.st) (line : string) :
  Dict.mem k (Pass1.noises s) = true ->
  Pass1.scan_line math_pow cfg perlin s line = Ok s' ->
  Dict.mem k (Pass1.noises s') = true.
Proof.
  intro M. unfold Pass1.scan_line.
  repeat match goal with
    | |- context [if ?c then _ else _] => destruct c
    | |- context [bind ?m _] => destruct m; simpl
    end;
    intro E; try discriminate; injection E as <-; simpl;
    auto using mem_set.
Qed.

End FirstPassKeys.

(** X20.  The noise map of the first pass.  Whatever the stream, the map
    the first pass returns holds the height 0 and has no two equal keys: a
    height visited several times has one entry. *)
Theorem X20_noise_map_has_zero_and_distinct_keys
    (math_pow : Q -> Q -> result Q) (cfg : Settings) (perlin : Perlin.t)
    (data : list string) (s : Pass1.st) :
  Pass1.run math_pow cfg perlin data = Ok s ->
  Dict.mem 0 (Pass1.noises s) = true /\ Dict.wf (Pass1.noises s).
Proof.
  intro R. split; [|exact (run_wf math_pow cfg perlin data s R)].
  revert R. unfold Pass1.run, Pass1.init.
  destruct (Pass1.sample math_pow cfg perlin 0) as [n0|]; simpl;
    [|discriminate].
  set (s0 := {| Pass1.noises := _ |}).
  assert (M : Dict.mem 0 (Pass1.noises s0) = true) by reflexivity.
  clearbody s0. revert s0 M.
  induction data as [|layer data IH]; simpl; intros s0 M E.
  - injection E as <-. exact M.
  - destruct (Pass1.scan_lines math_pow cfg perlin s0 (Str.split layer))
      as [s1|] eqn:L; simpl in E; [|discriminate].
    apply (IH s1); [|exact E].
    clear E IH. revert s0 M L.
    induction (Str.split layer) as [|line lines IHl]; simpl; intros s0 M L.
    + injection L as <-. exact M.
    + destruct (Pass1.scan_line math_pow cfg perlin s0 line) as [s2|] eqn:L2;
        simpl in L; [|discriminate].
      exact (IHl s2 (scan_line_mem _ _ _ _ _ _ _ M L2) L).
Qed.

Lemma X20_noise_map_has_zero_and_distinct_keys_witness :
  exists s,
    Pass1.run pow_exponent_one cfg_default (Perlin.init 256 sample_shuffle)
      ["G90" ++ Str.eol ++ "G1 Z0.3" ++ Str.eol ++ "G1 Z0.6" ++ Str.eol
       ++ "G1 Z0.3" ++ Str.eol] = Ok s /\
    Dict.keys (Pass1.noises s) = [0; height_03; height_06] /\
    Dict.wf (Pass1.noises s).
Proof.
  eexists.
  match goal with
  | |- ?t = Ok ?s /\ _ =>
      assert (R : t = Ok s) by (vm_compute; reflexivity)
  end.
  split; [exact R|]. split; [reflexivity|].
  exact (proj2 (X20_noise_map_has_zero_and_distinct_keys _ _ _ _ _ R)).
Defined.



(** ** Layers past the last height *)

Section PastLast.

Variable cfg : Settings.
Variable noises : Dict.t.
Variable lastPatchZ : Q.

Lemma rewrite_lines_past_last (s : Pass2.st) (lines : list string) :
  Pass2.thisZ s == lastPatchZ ->
  (Pass2.skiplines s <= 0)%Z ->
  Forall unmarked lines ->
  Pass2.rewrite_lines cfg noises lastPatchZ s lines = Ok s.
Proof.
  intros T K F. induction F as [|line lines [C1 C2] _ IH]; [reflexivity|].
  simpl. unfold Pass2.rewrite_line. rewrite C1, C2.
  rewrite Z.gtb_ltb, (proj2 (Z.ltb_ge 0 (Pass2.skiplines s)) K).
  rewrite (proj2 (Qeq_bool_iff _ _) T).
  destruct (negb (Str.contains ";woodgraph" (Str.lower line))); exact IH.
Qed.

End PastLast.

(** X22.  Layers past the last height.  Once [thisZ] equals [lastPatchZ]
    at the start of a layer (no skip pending, nothing to save), the loop
    leaves the store as it is over all the remaining layers free of the
    [; set extruder] and [;woodified] markers: only the graph will be
    appended to the last of them. *)
Theorem X22_layers_past_last_height_are_kept
    (cfg : Settings) (noises : Dict.t) (lastPatchZ : Q)
    (todo : list string) (index : nat) (data : list string) (s : Pass2.st) :
  Pass2.thisZ s == lastPatchZ ->
  (Pass2.skiplines s <= 0)%Z ->
  Pass2.savelayer s = false ->
  Forall (fun layer => Forall unmarked (Str.split layer)) todo ->
  exists s',
    Exec.rewrite_layers cfg noises lastPatchZ todo index false data s
    = inr (data, s', (index + List.length todo - 1)%nat) /\
    Pass2.graphStr s' = Pass2.graphStr s /\
    Pass2.layer s' = last todo (Pass2.layer s).
Proof.
  intros T K V F. revert index s T K V.
  induction F as [|l todo Hl _ IH]; intros index s T K V.
  - exists s. simpl. rewrite Nat.add_0_r. auto.
  - cbn [Exec.rewrite_layers].
    rewrite rewrite_lines_past_last; [|exact T|exact K|exact Hl].
    cbn [Pass2.savelayer]. rewrite V.
    match goal with
    | |- context [Exec.rewrite_layers _ _ _ _ _ _ _ ?s1] =>
        destruct (IH (S index) s1 T K eq_refl) as (s' & E & G & L)
    end.
    exists s'. rewrite E. split; [|split].
    + f_equal. f_equal. cbn [List.length]. lia.
    + exact G.
    + rewrite L. cbn [Pass2.layer]. destruct todo as [|l' todo];
        [reflexivity|].
      change (last (l :: l' :: todo) (Pass2.layer s))
        with (last (l' :: todo) (Pass2.layer s)).
      generalize l (Pass2.layer s). clear.
      revert l'. induction todo as [|x todo IHt]; intros l' a b;
        [reflexivity|].
      exact (IHt x a b).
Qed.

Lemma X22_layers_past_last_height_are_kept_witness :
  exists s',
    Exec.rewrite_layers cfg_default noises_three height_03
      ["G91" ++ Str.eol ++ "G1 Z5"; "M104 S0" ++ Str.eol ++ "M84"]
      1 false
      ["G90"; "G91" ++ Str.eol ++ "G1 Z5"; "M104 S0" ++ Str.eol ++ "M84"]
      state_relative_layer
    = inr (["G90"; "G91" ++ Str.eol ++ "G1 Z5";
            "M104 S0" ++ Str.eol ++ "M84"], s', 2%nat).
Proof.
  destruct (X22_layers_past_last_height_are_kept cfg_default noises_three
              height_03
              ["G91" ++ Str.eol ++ "G1 Z5"; "M104 S0" ++ Str.eol ++ "M84"]
              1
              ["G90"; "G91" ++ Str.eol ++ "G1 Z5";
               "M104 S0" ++ Str.eol ++ "M84"]
              state_relative_layer)
    as (s' & E & _).
  - reflexivity.
  - vm_compute. discriminate.
  - reflexivity.
  - repeat constructor.
  - exists s'. exact E.
Defined.
